(** * GitHub-mode governance scripts: policy gate and implementation scoreboard

    A shallow embedding of two TypeScript modules,
    [enforce-policy-gated-adapter.ts] and [check-implementation-scoreboard.ts],
    together with the properties their specification states about them.

    Conventions of the embedding.
    - A JavaScript string is the list of its UTF-16 code units ([list N]).
      ASCII literals are written [lit "..."]; other code units are spelled out.
    - A call that can throw returns a [Completion]: [Normal v] or [Throw msg],
      where [msg] is the message of the thrown error.
    - What the scripts ask of their platform is a parameter: node:fs,
      node:path, [JSON.parse] and the clock are the fields of a [Host] record,
      and the collation behind [localeCompare] is a variable of the functions
      that sort with it. *)

From Stdlib Require Import NArith ZArith Lia Ascii.
From Stdlib Require DecimalString.
From stdpp Require Import base strings list gmap sorting.

Local Open Scope N_scope.

(** ** JavaScript strings *)

Abbreviation jsstring := (list N).

Definition lit (s : String.string) : jsstring :=
  N_of_ascii <$> String.list_ascii_of_string s.
Arguments lit s%_string : simpl never.

Definition TAB : N := 9.
Definition LF : N := 10.
Definition QUOTE : N := 34.
(** U+2014 EM DASH, used in the reason strings of the policy gate. *)
Definition EM_DASH : N := 8212.

(** [s.startsWith(p)] *)
Fixpoint startsWith (s p : jsstring) {struct p} : bool :=
  match p, s with
  | [], _ => true
  | _ :: _, [] => false
  | a :: p', b :: s' => (a =? b) && startsWith s' p'
  end.

(** [s.endsWith(p)] *)
Definition endsWith (s p : jsstring) : bool :=
  startsWith (rev s) (rev p).

(** [s.includes(needle)] (also what [toContain] tests on strings) *)
Fixpoint str_includes (s needle : jsstring) : bool :=
  startsWith s needle ||
  match s with
  | [] => false
  | _ :: s' => str_includes s' needle
  end.

(** [s.split(sep)] for a separator of one code unit: never the empty list. *)
Fixpoint split (sep : N) (s : jsstring) : list jsstring :=
  match s with
  | [] => [[]]
  | c :: s' =>
      if c =? sep then [] :: split sep s'
      else match split sep s' with
           | [] => [[c]]
           | p :: ps => (c :: p) :: ps
           end
  end.

(** ECMAScript WhiteSpace and LineTerminator code points (all in the BMP). *)
Definition isWhiteSpace (c : N) : bool :=
  ((9 <=? c) && (c <=? 13)) || (c =? 32) || (c =? 160) || (c =? 5760) ||
  ((8192 <=? c) && (c <=? 8202)) || (c =? 8232) || (c =? 8233) ||
  (c =? 8239) || (c =? 8287) || (c =? 12288) || (c =? 65279).

Fixpoint trimStart (s : jsstring) : jsstring :=
  match s with
  | [] => []
  | c :: s' => if isWhiteSpace c then trimStart s' else s
  end.

Definition trimEnd (s : jsstring) : jsstring := rev (trimStart (rev s)).

(** [s.trim()] *)
Definition trim (s : jsstring) : jsstring := trimEnd (trimStart s).

(** [parts.join(sep)] on an array of strings *)
Fixpoint join (sep : jsstring) (parts : list jsstring) : jsstring :=
  match parts with
  | [] => []
  | [p] => p
  | p :: ps => p ++ sep ++ join sep ps
  end.

(** [String(n)] for a non-negative integer. *)
Definition decimal (n : N) : jsstring :=
  lit (DecimalString.NilEmpty.string_of_uint (N.to_uint n)).

(** Code-unit lexicographic order: the [<] of the language on strings. *)
Fixpoint str_lt (a b : jsstring) : bool :=
  match a, b with
  | _, [] => false
  | [], _ :: _ => true
  | x :: a', y :: b' => (x <? y) || ((x =? y) && str_lt a' b')
  end.

(** ** Outcomes of calls that may throw *)

Inductive Completion (A : Type) : Type :=
| Normal (value : A)
| Throw (message : jsstring).
Arguments Normal {A} value.
Arguments Throw {A} message.

#[global] Instance Completion_ret : MRet Completion := λ A a, Normal a.
#[global] Instance Completion_bind : MBind Completion := λ A B k c,
  match c with
  | Normal a => k a
  | Throw m => Throw m
  end.

(** ** Arrays: the library methods the scripts call *)

(** [Array.prototype.toSorted(cmp)]: the language requires a stable sort; with a
    consistent comparator the result is the unique stable ordering, computed
    here by insertion from the right. *)
Fixpoint sort_insert {A} (cmp : A → A → Z) (x : A) (l : list A) : list A :=
  match l with
  | [] => [x]
  | y :: l' => if (cmp x y <=? 0)%Z then x :: l else y :: sort_insert cmp x l'
  end.

Fixpoint toSorted {A} (cmp : A → A → Z) (l : list A) : list A :=
  match l with
  | [] => []
  | x :: l' => sort_insert cmp x (toSorted cmp l')
  end.

(** The comparator [toSorted()] uses when none is given (on strings). *)
Definition defaultCompare (a b : jsstring) : Z :=
  if str_lt a b then (-1)%Z else if str_lt b a then 1%Z else 0%Z.

(** A [Set] of strings, iterated in insertion order. *)
Definition set_add (x : jsstring) (s : list jsstring) : list jsstring :=
  if bool_decide (x ∈ s) then s else s ++ [x].

(** * check-implementation-scoreboard.ts *)

Module Scoreboard.

Definition SCOREBOARD_PATH : jsstring :=
  lit ".GITHUB-MODE/runtime/implementation-scoreboard.json".
Definition SPEC_ARTIFACT_PREFIX : jsstring := lit ".GITHUB-MODE/docs/planning/".

Record DiffEntry := { status : jsstring; path : jsstring }.

(** The body of the loop of [parseDiffEntries]: what one line pushes. *)
Definition parseLine (line : jsstring) : list DiffEntry :=
  let parts := split TAB line in
  match parts with
  | p0 :: p1 :: rest =>
      let status := trim p0 in
      if startsWith status (lit "R") || startsWith status (lit "C") then
        {| status := status; path := trim p1 |} ::
        match rest with
        | (c :: p2') :: _ =>
            [ {| status := status; path := trim (c :: p2') |} ]
        | _ => []
        end
      else [ {| status := status; path := trim p1 |} ]
  | _ => []
  end.

Definition parseDiffEntries (diffOutput : jsstring) : list DiffEntry :=
  fold_left (λ entries line, entries ++ parseLine line) (split LF diffOutput) [].

(** The spec-tracking guard. *)

Definition isSpecArtifact (path : jsstring) : bool :=
  startsWith path SPEC_ARTIFACT_PREFIX && endsWith path (lit ".md") &&
  negb (endsWith path (lit "/README.md")).

Definition getAddedSpecArtifacts (entries : list DiffEntry) : list jsstring :=
  let additions :=
    fold_left
      (λ additions entry,
         if bool_decide (status entry = lit "A") && isSpecArtifact (path entry)
         then set_add (path entry) additions
         else additions)
      entries [] in
  toSorted defaultCompare additions.

Definition hasScoreboardUpdate (entries : list DiffEntry) : bool :=
  existsb
    (λ entry, bool_decide (path entry = SCOREBOARD_PATH) &&
              negb (bool_decide (status entry = lit "D")))
    entries.

Definition enforceSpecToImplementationTracking (entries : list DiffEntry)
  : Completion unit :=
  let addedSpecs := getAddedSpecArtifacts entries in
  if (length addedSpecs =? 0)%nat then Normal ()
  else if negb (hasScoreboardUpdate entries) then
    Throw
      (join [LF]
         ([ lit "New planning/spec artifacts were added without updating implementation scoreboard.";
            lit "Added artifacts:" ]
          ++ ((λ artifact, lit "  - " ++ artifact) <$> addedSpecs)
          ++ [ lit "Update " ++ SCOREBOARD_PATH ++
               lit " in the same change to keep spec-vs-implementation tracking current." ]))
  else Normal ().

(** The scoreboard. Fields carry their declared types; [ScoreState] is a union
    of string literals, which the compiler erases, so [state] is a string and
    [validateScoreboard] is what checks it. *)

Record Capability := {
  id : jsstring;
  description : jsstring;
  state : jsstring;
  evidence : option (list jsstring);
}.

Record Scoreboard := {
  version : Z;
  capabilities : list Capability;
}.

Definition allowedStates : list jsstring :=
  [ lit "spec-only"; lit "scaffold"; lit "operational" ].

(** The loop of [validateScoreboard], with the set of ids seen so far. *)
Fixpoint validateCapabilities (ids : gset jsstring) (cs : list Capability)
  : Completion unit :=
  match cs with
  | [] => Normal ()
  | capability :: cs' =>
      if bool_decide (id capability = []) || bool_decide (description capability = [])
      then Throw (lit "Each capability requires non-empty id and description fields.")
      else if bool_decide (id capability ∈ ids)
      then Throw (lit "Duplicate capability id found: " ++ id capability)
      else
        let ids := {[ id capability ]} ∪ ids in
        if negb (bool_decide (state capability ∈ allowedStates))
        then Throw (lit "Capability " ++ id capability ++ lit " has invalid state " ++
                    [QUOTE] ++ state capability ++ [QUOTE] ++ lit ". " ++
                    lit "Expected one of: " ++ join (lit ", ") allowedStates ++ lit ".")
        else validateCapabilities ids cs'
  end.

(** [capabilities] is an array by its type, which leaves the test on its
    length. *)
Definition validateScoreboard (scoreboard : Scoreboard) : Completion unit :=
  if (length (capabilities scoreboard) =? 0)%nat
  then Throw (lit "implementation-scoreboard.json must contain at least one capability.")
  else validateCapabilities ∅ (capabilities scoreboard).

(** The [counts] object: its three declared properties, always numbers, and the
    own properties [counts[state] += 1] creates for any other [state]. Such a
    property holds [NaN] ([undefined + 1]) or, when [state] names a member
    inherited from [Object.prototype], a string (that member's text with a 1
    appended); adding 1 again leaves it [NaN], respectively a string. *)
Inductive StrayValue := StrayNaN | StrayText.

Record Counts := {
  spec_only : N;
  scaffold : N;
  operational : N;
  stray : list (jsstring * StrayValue);
}.

Definition OBJECT_PROTOTYPE_KEYS : list jsstring :=
  [ lit "constructor"; lit "hasOwnProperty"; lit "isPrototypeOf";
    lit "propertyIsEnumerable"; lit "toLocaleString"; lit "toString";
    lit "valueOf"; lit "__defineGetter__"; lit "__defineSetter__";
    lit "__lookupGetter__"; lit "__lookupSetter__" ].

(** [counts[state] += 1] *)
Definition increment (state : jsstring) (counts : Counts) : Counts :=
  if bool_decide (state = lit "spec-only") then
    {| spec_only := spec_only counts + 1; scaffold := scaffold counts;
       operational := operational counts; stray := stray counts |}
  else if bool_decide (state = lit "scaffold") then
    {| spec_only := spec_only counts; scaffold := scaffold counts + 1;
       operational := operational counts; stray := stray counts |}
  else if bool_decide (state = lit "operational") then
    {| spec_only := spec_only counts; scaffold := scaffold counts;
       operational := operational counts + 1; stray := stray counts |}
  else if bool_decide (state = lit "__proto__") then
    counts (* the inherited setter ignores a value that is no object *)
  else if bool_decide (state ∈ (stray counts).*1) then counts
  else
    {| spec_only := spec_only counts; scaffold := scaffold counts;
       operational := operational counts;
       stray := stray counts ++
                [ (state, if bool_decide (state ∈ OBJECT_PROTOTYPE_KEYS)
                          then StrayText else StrayNaN) ] |}.

Definition getScoreCounts (scoreboard : Scoreboard) : Counts :=
  fold_left (λ counts capability, increment (state capability) counts)
    (capabilities scoreboard)
    {| spec_only := 0; scaffold := 0; operational := 0; stray := [] |}.

Definition renderSummaryMarkdown (scoreboard : Scoreboard) : jsstring :=
  let counts := getScoreCounts scoreboard in
  let total := N.of_nat (length (capabilities scoreboard)) in
  let operationalRatio := decimal (operational counts) ++ lit "/" ++ decimal total in
  join [LF]
    [ lit "- Capabilities tracked: **" ++ decimal total ++ lit "**";
      lit "- Operational: **" ++ decimal (operational counts) ++ lit "**";
      lit "- Scaffold: **" ++ decimal (scaffold counts) ++ lit "**";
      lit "- Spec-only: **" ++ decimal (spec_only counts) ++ lit "**";
      lit "- Implementation ratio (operational/total): **" ++ operationalRatio ++ lit "**" ].

(** The report; its [capabilities] field is [reportCapabilities] here. *)
Record ParityReport := {
  generatedAt : jsstring;
  scoreboardVersion : Z;
  summary : jsstring;
  counts : Counts;
  totalCapabilities : N;
  reportCapabilities : list Capability;
}.

Section Collation.
(** [a.localeCompare(b)]: the host's collation, negative, zero or positive. *)
Variable localeCompare : jsstring → jsstring → Z.

Definition buildParityReport (scoreboard : Scoreboard) : ParityReport :=
  let counts := getScoreCounts scoreboard in
  {| generatedAt := lit "1970-01-01T00:00:00.000Z";
     scoreboardVersion := version scoreboard;
     summary := renderSummaryMarkdown scoreboard;
     counts := counts;
     totalCapabilities := N.of_nat (length (capabilities scoreboard));
     reportCapabilities :=
       toSorted (λ a b, localeCompare (id a) (id b)) (capabilities scoreboard) |}.
End Collation.

End Scoreboard.

(** ** Arrays as objects: who may observe a mutation

    [buildParityReport] again, with the capabilities array held by reference
    in a store of array objects, so that copying and sorting are allocations
    the caller could tell apart from an update in place. *)

Module Aliasing.
Import Scoreboard.

(** Array objects in allocation order; a reference is an index. *)
Definition Store := list (list Capability).

Record ScoreboardObject := {
  objVersion : Z;
  capabilitiesRef : nat;
}.

Record ParityReportObject := {
  objGeneratedAt : jsstring;
  objScoreboardVersion : Z;
  objSummary : jsstring;
  objCounts : Counts;
  objTotalCapabilities : N;
  objCapabilitiesRef : nat;
}.

Definition alloc (elements : list Capability) (σ : Store) : nat * Store :=
  (length σ, σ ++ [elements]).

(** The scoreboard value an object stands for in a store; [None] when its
    reference is dangling, which no object of the language is. *)
Definition deref (scoreboard : ScoreboardObject) (σ : Store) : option Scoreboard :=
  elements ← σ !! capabilitiesRef scoreboard;
  Some {| version := objVersion scoreboard; capabilities := elements |}.

Definition derefReport (report : ParityReportObject) (σ : Store)
  : option ParityReport :=
  elements ← σ !! objCapabilitiesRef report;
  Some {| generatedAt := objGeneratedAt report;
          scoreboardVersion := objScoreboardVersion report;
          summary := objSummary report;
          counts := objCounts report;
          totalCapabilities := objTotalCapabilities report;
          reportCapabilities := elements |}.

Section Collation.
Variable localeCompare : jsstring → jsstring → Z.

(** [getScoreCounts] and [renderSummaryMarkdown] only read the array; the
    spread [[...capabilities]] allocates a copy and [toSorted] allocates the
    sorted array from that copy. *)
Definition buildParityReport (scoreboard : ScoreboardObject) (σ : Store)
  : option (ParityReportObject * Store) :=
  value ← deref scoreboard σ;
  let counts := getScoreCounts value in
  let summary := renderSummaryMarkdown value in
  let total := N.of_nat (length (capabilities value)) in
  let '(copy, σ1) := alloc (capabilities value) σ in
  copied ← σ1 !! copy;
  let '(sorted, σ2) :=
    alloc (toSorted (λ a b, localeCompare (id a) (id b)) copied) σ1 in
  Some ({| objGeneratedAt := lit "1970-01-01T00:00:00.000Z";
           objScoreboardVersion := objVersion scoreboard;
           objSummary := summary;
           objCounts := counts;
           objTotalCapabilities := total;
           objCapabilitiesRef := sorted |}, σ2).
End Collation.

End Aliasing.

(** * enforce-policy-gated-adapter.ts *)

Module PolicyGate.

(** A value produced by [JSON.parse]. A number is kept as its decimal text
    ([String(n)]): the script never computes with one. An object is the list
    of its own properties. *)
#[warnings="-register-all"]
Inductive Json :=
| JNull
| JBool (b : bool)
| JNumber (text : jsstring)
| JString (s : jsstring)
| JArray (items : list Json)
| JObject (props : list (jsstring * Json)).

(** What the script asks of its platform. A thrown error is represented by the
    text the script prints for it ([error.message], or [String(error)]). *)
Record Host := {
  path_join : jsstring → jsstring → jsstring;
  readFileSync : jsstring → Completion jsstring;
  JSON_parse : jsstring → Completion Json;
  (** [new Date().toISOString()] at the time of the call *)
  now_toISOString : jsstring;
}.

Definition COMMAND_POLICY_PATH : jsstring :=
  lit ".GITHUB-MODE/runtime/command-policy.json".
Definition ADAPTER_CONTRACTS_PATH : jsstring :=
  lit ".GITHUB-MODE/runtime/adapter-contracts.json".

(** An object literal whose values are all strings: its properties in order. *)
Definition PolicyDecision := list (jsstring * jsstring).

(** [object[key]]: the first property of that name. *)
Fixpoint lookup_prop {V} (key : jsstring) (props : list (jsstring * V)) : option V :=
  match props with
  | [] => None
  | (k, v) :: props' => if bool_decide (k = key) then Some v else lookup_prop key props'
  end.

Definition readJson (h : Host) (filePath root : jsstring) : Completion Json :=
  let fullPath := path_join h root filePath in
  readFileSync h fullPath ≫= JSON_parse h.

(** [value.key], for the keys this script reads ([policyVersion],
    [enforcementMode], [allowedActions], [adapters], [name], [constraints]),
    none of which a built-in prototype defines: a [TypeError] on [null], the
    own property on an object, [undefined] ([None]) on anything else. *)
Definition getProp (value : Json) (key : jsstring) : Completion (option Json) :=
  match value with
  | JNull =>
      Throw (lit "Cannot read properties of null (reading '" ++ key ++ lit "')")
  | JObject props => Normal (lookup_prop key props)
  | _ => Normal None
  end.

(** The conversion to string [join] applies to the elements of an array.
    An object converts through the inherited [toString], unless it has an own
    property of that name: a parsed value is never callable, [valueOf] cannot
    return a primitive either, and the conversion throws. *)
Fixpoint toStringJson (v : Json) : Completion jsstring :=
  match v with
  | JNull => Normal (lit "null")
  | JBool true => Normal (lit "true")
  | JBool false => Normal (lit "false")
  | JNumber text => Normal text
  | JString s => Normal s
  | JArray items =>
      (fix joinItems (items : list Json) : Completion jsstring :=
         match items with
         | [] => Normal []
         | x :: rest =>
             first ← match x with JNull => Normal [] | _ => toStringJson x end;
             match rest with
             | [] => Normal first
             | _ => others ← joinItems rest; Normal (first ++ lit "," ++ others)
             end
         end) items
  | JObject props =>
      match lookup_prop (lit "toString") props with
      | None => Normal (lit "[object Object]")
      | Some _ => Throw (lit "Cannot convert object to primitive value")
      end
  end.

(** [items.join(sep)] on an array of parsed values: [null] gives the empty
    string, and the first conversion that throws ends the call. *)
Fixpoint joinJson (sep : jsstring) (items : list Json) : Completion jsstring :=
  match items with
  | [] => Normal []
  | x :: rest =>
      first ← match x with JNull => Normal [] | _ => toStringJson x end;
      match rest with
      | [] => Normal first
      | _ => others ← joinJson sep rest; Normal (first ++ sep ++ others)
      end
  end.

(** [value === s], for [value] read from a parsed document and a string [s]. *)
Definition strictEqualsString (value : option Json) (s : jsstring) : bool :=
  match value with
  | Some (JString s') => bool_decide (s' = s)
  | _ => false
  end.

(** The callback of [adapters.find]. *)
Definition isNamed (adapterName : jsstring) (a : Json) : bool :=
  match a with
  | JObject props =>
      strictEqualsString (lookup_prop (lit "name") props) adapterName
  | _ => false (* null, a primitive, or an array, which has no such property *)
  end.

(** [allowedActions.includes(action)]: only a string equals a string. *)
Definition includesString (items : list Json) (action : jsstring) : bool :=
  existsb (λ x, strictEqualsString (Some x) action) items.

Definition PASS : jsstring := lit "PASS".
Definition FAIL : jsstring := lit "FAIL".
Definition fail_closed_denial : jsstring := [EM_DASH] ++ lit " fail-closed denial".

(** [{ ...base, result, reason, evidence, policyVersion, enforcementMode }] *)
Definition decision (base : PolicyDecision)
    (result reason evidence policyVersion enforcementMode : jsstring)
  : PolicyDecision :=
  base ++ [ (lit "result", result); (lit "reason", reason);
            (lit "evidence", evidence); (lit "policyVersion", policyVersion);
            (lit "enforcementMode", enforcementMode) ].

Definition enforcePolicyGatedAdapter (h : Host) (root adapterName action : jsstring)
  : Completion PolicyDecision :=
  let timestamp := now_toISOString h in
  let base :=
    [ (lit "gate", lit "policy-gated-adapter"); (lit "adapter", adapterName);
      (lit "action", action); (lit "timestamp", timestamp) ] in
  (* Load command policy *)
  match readJson h COMMAND_POLICY_PATH root with
  | Throw error =>
      Normal (decision base FAIL
                (lit "failed to read command-policy.json: " ++ error)
                COMMAND_POLICY_PATH (lit "unknown") (lit "unknown"))
  | Normal commandPolicy =>
      pv ← getProp commandPolicy (lit "policyVersion");
      let policyVersion :=
        match pv with Some (JString s) => s | _ => lit "unknown" end in
      em ← getProp commandPolicy (lit "enforcementMode");
      let enforcementMode :=
        match em with Some (JString s) => s | _ => lit "unknown" end in
      (* 1. Validate enforcement mode *)
      if negb (strictEqualsString em (lit "enforce")) then
        Normal (decision base FAIL
                  (lit "command-policy enforcementMode is " ++ [QUOTE] ++
                   enforcementMode ++ [QUOTE] ++ lit ", expected " ++ [QUOTE] ++
                   lit "enforce" ++ [QUOTE] ++ lit " " ++ fail_closed_denial)
                  COMMAND_POLICY_PATH policyVersion enforcementMode)
      else
      (* 2. Validate adapter exists in adapter-contracts.json *)
      match readJson h ADAPTER_CONTRACTS_PATH root with
      | Throw error =>
          Normal (decision base FAIL
                    (lit "failed to read adapter-contracts.json: " ++ error)
                    ADAPTER_CONTRACTS_PATH policyVersion enforcementMode)
      | Normal adapterContracts =>
          adapters ← getProp adapterContracts (lit "adapters");
          match adapters with
          | Some (JArray adapters) =>
              match find (λ a, isNamed adapterName a) adapters with
              | None =>
                  Normal (decision base FAIL
                            (lit "adapter " ++ [QUOTE] ++ adapterName ++ [QUOTE] ++
                             lit " not found in adapter-contracts.json " ++
                             fail_closed_denial)
                            ADAPTER_CONTRACTS_PATH policyVersion enforcementMode)
              | Some adapter =>
                  (* 3. Validate adapter has non-empty constraints *)
                  constraints ← getProp adapter (lit "constraints");
                  match constraints with
                  | Some (JArray (_ :: _)) =>
                      (* 4. Validate the requested action is in allowedActions *)
                      allowedActions ← getProp commandPolicy (lit "allowedActions");
                      match allowedActions with
                      | Some (JArray allowedActions) =>
                          if negb (includesString allowedActions action) then
                            allowed ← joinJson (lit ", ") allowedActions;
                            Normal (decision base FAIL
                                      (lit "action " ++ [QUOTE] ++ action ++ [QUOTE] ++
                                       lit " is not in allowedActions (allowed: " ++
                                       allowed ++ lit ") " ++ [EM_DASH] ++
                                       lit " policy denial")
                                      COMMAND_POLICY_PATH policyVersion enforcementMode)
                          else
                            (* All checks pass *)
                            Normal (decision base PASS
                                      (lit "adapter " ++ [QUOTE] ++ adapterName ++
                                       [QUOTE] ++ lit " with action " ++ [QUOTE] ++
                                       action ++ [QUOTE] ++
                                       lit " passed policy gate (enforcement: " ++
                                       enforcementMode ++ lit ", policy: " ++
                                       policyVersion ++ lit ")")
                                      (COMMAND_POLICY_PATH ++ lit ", " ++
                                       ADAPTER_CONTRACTS_PATH)
                                      policyVersion enforcementMode)
                      | _ =>
                          Normal (decision base FAIL
                                    (lit "command-policy allowedActions is not an array " ++
                                     fail_closed_denial)
                                    COMMAND_POLICY_PATH policyVersion enforcementMode)
                      end
                  | _ =>
                      Normal (decision base FAIL
                                (lit "adapter " ++ [QUOTE] ++ adapterName ++ [QUOTE] ++
                                 lit " has no constraints defined " ++
                                 fail_closed_denial)
                                ADAPTER_CONTRACTS_PATH policyVersion enforcementMode)
                  end
              end
          | _ =>
              Normal (decision base FAIL
                        (lit "adapter-contracts.json adapters is not an array " ++
                         fail_closed_denial)
                        ADAPTER_CONTRACTS_PATH policyVersion enforcementMode)
          end
      end
  end.

End PolicyGate.

(** * Vocabulary of the properties, and example inputs *)

(** [a] may stand before [b]: the comparator does not put it after. *)
Definition ascending {A} (cmp : A → A → Z) (a b : A) : Prop := (cmp a b <= 0)%Z.

Module ScoreboardSpec.
Import Scoreboard.

(** A rename or copy code: the test [parseDiffEntries] makes on the status. *)
Definition isRenameOrCopy (status : jsstring) : bool :=
  startsWith status (lit "R") || startsWith status (lit "C").

(** An entry that adds a spec artifact, and one that touches the scoreboard
    without deleting it. *)
Definition isAddedSpec (entry : DiffEntry) : Prop :=
  status entry = lit "A" ∧ isSpecArtifact (path entry) = true.

Definition isScoreboardChange (entry : DiffEntry) : Prop :=
  path entry = SCOREBOARD_PATH ∧ status entry ≠ lit "D".

(** How many capabilities are in a given state. *)
Definition countState (s : jsstring) (cs : list Capability) : N :=
  N.of_nat (length (filter (λ capability, state capability = s) cs)).

(** Inputs of the test suite and of the examples below. *)

(** A rename record with no destination field. *)
Definition rename_without_destination : jsstring :=
  lit "R100" ++ [TAB] ++ lit "old.md".

(** The scoreboards of the test suite. *)
Definition validScoreboard : Scoreboard :=
  {| version := 1;
     capabilities :=
       [ {| id := lit "a"; description := lit "A"; state := lit "operational";
            evidence := None |};
         {| id := lit "b"; description := lit "B"; state := lit "scaffold";
            evidence := None |};
         {| id := lit "c"; description := lit "C"; state := lit "spec-only";
            evidence := None |} ] |}.

Definition duplicateIds : Scoreboard :=
  {| version := 1;
     capabilities :=
       [ {| id := lit "same"; description := lit "x"; state := lit "operational";
            evidence := None |};
         {| id := lit "same"; description := lit "y"; state := lit "scaffold";
            evidence := None |} ] |}.

Definition duplicateIds_swapped : Scoreboard :=
  {| version := 1;
     capabilities :=
       [ {| id := lit "same"; description := lit "y"; state := lit "scaffold";
            evidence := None |};
         {| id := lit "same"; description := lit "x"; state := lit "operational";
            evidence := None |} ] |}.

Definition unsortedScoreboard : Scoreboard :=
  {| version := 2;
     capabilities :=
       [ {| id := lit "z"; description := lit "Last"; state := lit "scaffold";
            evidence := None |};
         {| id := lit "a"; description := lit "First"; state := lit "operational";
            evidence := None |} ] |}.

(** A store holding one array, the capabilities of [unsortedScoreboard]. *)
Definition exampleStore : Aliasing.Store :=
  [ capabilities unsortedScoreboard ].

End ScoreboardSpec.

Module PolicyGateSpec.
Import PolicyGate.

(** The nine fields of [PolicyDecision], in the order the object literals
    create them. *)
Definition DECISION_FIELDS : list jsstring :=
  [ lit "gate"; lit "adapter"; lit "action"; lit "timestamp"; lit "result";
    lit "reason"; lit "evidence"; lit "policyVersion"; lit "enforcementMode" ].

(** The [base] object of a call. *)
Definition base (h : Host) (adapterName action : jsstring) : PolicyDecision :=
  [ (lit "gate", lit "policy-gated-adapter"); (lit "adapter", adapterName);
    (lit "action", action); (lit "timestamp", now_toISOString h) ].

(** [d.result] and [d.reason] *)
Definition resultOf (d : PolicyDecision) : option jsstring :=
  lookup_prop (lit "result") d.

Definition reasonOf (d : PolicyDecision) : option jsstring :=
  lookup_prop (lit "reason") d.

(** What [String(value)] gives for the observed [enforcementMode]. *)
Definition observedModeText (mode : option Json) : Completion jsstring :=
  match mode with
  | None => Normal (lit "undefined")
  | Some value => toStringJson value
  end.

(** Both calls end the same way, and decisions agree on every field but
    [timestamp]. *)
Definition same_but_timestamp (c1 c2 : Completion PolicyDecision) : Prop :=
  match c1, c2 with
  | Normal d1, Normal d2 =>
      d1.*1 = d2.*1 ∧
      ∀ field, field ≠ lit "timestamp" → lookup_prop field d1 = lookup_prop field d2
  | Throw m1, Throw m2 => m1 = m2
  | _, _ => False
  end.

(** Example platforms.

    POSIX [path.join] on a root with no trailing separator, a file system given
    as a table from paths to contents, [JSON.parse] on the documents listed,
    and a clock reading. *)
Definition tableHost (files : list (jsstring * jsstring))
    (documents : list (jsstring * Json)) (clock : jsstring) : Host :=
  {| path_join root filePath := root ++ lit "/" ++ filePath;
     readFileSync fullPath :=
       match lookup_prop fullPath files with
       | Some text => Normal text
       | None => Throw (lit "ENOENT: no such file or directory, open '" ++
                        fullPath ++ lit "'")
       end;
     JSON_parse text :=
       match lookup_prop text documents with
       | Some value => Normal value
       | None => Throw (lit "Unexpected token in JSON")
       end;
     now_toISOString := clock |}.

(** JSON text written with ' for the double quote. *)
Definition json_text (s : jsstring) : jsstring :=
  (λ c, if c =? 39 then QUOTE else c) <$> s.

(** The documents of the examples: their text and what it parses to. *)
Definition policy_text : jsstring :=
  json_text (lit "{'policyVersion':'v1.0.0','enforcementMode':'enforce','allowedActions':['plan','validate','open-pr']}").

Definition policy_value : Json :=
  JObject [ (lit "policyVersion", JString (lit "v1.0.0"));
            (lit "enforcementMode", JString (lit "enforce"));
            (lit "allowedActions",
             JArray [ JString (lit "plan"); JString (lit "validate");
                      JString (lit "open-pr") ]) ].

Definition contracts_text : jsstring :=
  json_text (lit "{'adapters':[{'name':'repo-write','constraints':['No direct writes to protected branches.']}]}").

Definition contracts_value : Json :=
  JObject [ (lit "adapters",
             JArray [ JObject [ (lit "name", JString (lit "repo-write"));
                                (lit "constraints",
                                 JArray [ JString (lit "No direct writes to protected branches.") ]) ] ]) ].

Definition numeric_mode_text : jsstring := json_text (lit "{'enforcementMode':42}").

Definition numeric_mode_value : Json :=
  JObject [ (lit "enforcementMode", JNumber (lit "42")) ].

Definition audit_mode_text : jsstring :=
  json_text (lit "{'policyVersion':'v1.0.0','enforcementMode':'audit'}").

Definition audit_mode_value : Json :=
  JObject [ (lit "policyVersion", JString (lit "v1.0.0"));
            (lit "enforcementMode", JString (lit "audit")) ].

Definition shadowing_text : jsstring :=
  json_text (lit "{'enforcementMode':'enforce','allowedActions':[{'toString':1}]}").

Definition shadowing_value : Json :=
  JObject [ (lit "enforcementMode", JString (lit "enforce"));
            (lit "allowedActions",
             JArray [ JObject [ (lit "toString", JNumber (lit "1")) ] ]) ].

Definition documents : list (jsstring * Json) :=
  [ (policy_text, policy_value); (contracts_text, contracts_value);
    (numeric_mode_text, numeric_mode_value);
    (audit_mode_text, audit_mode_value);
    (shadowing_text, shadowing_value); (lit "null", JNull) ].

(** The root directory and the hosts of the examples. *)
Definition repo : jsstring := lit "/repo".

Definition filesOf (policy contracts : jsstring) : list (jsstring * jsstring) :=
  [ (repo ++ lit "/" ++ COMMAND_POLICY_PATH, policy);
    (repo ++ lit "/" ++ ADAPTER_CONTRACTS_PATH, contracts) ].

Definition validHost (clock : jsstring) : Host :=
  tableHost (filesOf policy_text contracts_text) documents clock.

Definition auditModeHost : Host :=
  tableHost (filesOf audit_mode_text contracts_text) documents
    (lit "2026-02-20T00:00:00.000Z").

Definition nullPolicyHost : Host :=
  tableHost (filesOf (lit "null") contracts_text) documents
    (lit "2026-02-20T00:00:00.000Z").

Definition nullContractsHost : Host :=
  tableHost (filesOf policy_text (lit "null")) documents
    (lit "2026-02-20T00:00:00.000Z").

Definition shadowingHost : Host :=
  tableHost (filesOf shadowing_text contracts_text) documents
    (lit "2026-02-20T00:00:00.000Z").

(** No command-policy.json at all. *)
Definition missingPolicyHost : Host :=
  tableHost [ (repo ++ lit "/" ++ ADAPTER_CONTRACTS_PATH, contracts_text) ] documents
    (lit "2026-02-20T00:00:00.000Z").

Definition numericModeHost : Host :=
  tableHost (filesOf numeric_mode_text contracts_text) documents
    (lit "2026-02-20T00:00:00.000Z").

End PolicyGateSpec.

(** * check-implementation-scoreboard.ts: report rendering and command line *)

Module ScoreboardCli.
Import Scoreboard.

Section Platform.
(** [a.localeCompare(b)], and the text a template literal gives a number. *)
Variable localeCompare : jsstring → jsstring → Z.
Variable Number_toString : Z → jsstring.

Definition renderParityReportMarkdown (scoreboard : Scoreboard) : jsstring :=
  let report := buildParityReport localeCompare scoreboard in
  let header :=
    [ lit "# GitHub Mode Parity Report";
      [];
      lit "Generated at: " ++ generatedAt report;
      lit "Scoreboard version: " ++ Number_toString (scoreboardVersion report);
      [];
      lit "## Summary";
      summary report;
      [];
      lit "## Capabilities";
      lit "| ID | State | Description |";
      lit "| --- | --- | --- |" ] in
  let capabilities :=
    (λ capability,
       lit "| " ++ id capability ++ lit " | " ++ state capability ++ lit " | " ++
       description capability ++ lit " |") <$> reportCapabilities report in
  join [LF] (header ++ capabilities).
End Platform.

(** [reportFormat] is declared as the union of "json" and "markdown"; it is a
    string here, and [parseCliOptions] is what restricts it. *)
Record CliOptions := {
  summary : bool;
  reportFile : option jsstring;
  reportFormat : jsstring;
}.

(** The loop of [parseCliOptions] from the argument at [index] on; a flag that
    takes a value makes the loop skip that value. *)
Fixpoint parseCliOptionsFrom (args : list jsstring) (options : CliOptions)
  : Completion CliOptions :=
  match args with
  | [] => Normal options
  | arg :: rest =>
      if bool_decide (arg = lit "--summary") then
        parseCliOptionsFrom rest
          {| summary := true; reportFile := reportFile options;
             reportFormat := reportFormat options |}
      else if bool_decide (arg = lit "--report-file") then
        match rest with
        | value :: rest' =>
            if bool_decide (value = []) || startsWith value (lit "--")
            then Throw (lit "--report-file requires a file path argument.")
            else parseCliOptionsFrom rest'
                   {| summary := summary options; reportFile := Some value;
                      reportFormat := reportFormat options |}
        | [] => Throw (lit "--report-file requires a file path argument.")
        end
      else if bool_decide (arg = lit "--report-format") then
        match rest with
        | value :: rest' =>
            if negb (bool_decide (value = lit "json")) &&
               negb (bool_decide (value = lit "markdown"))
            then Throw (lit "--report-format must be either 'json' or 'markdown'.")
            else parseCliOptionsFrom rest'
                   {| summary := summary options; reportFile := reportFile options;
                      reportFormat := value |}
        | [] => Throw (lit "--report-format must be either 'json' or 'markdown'.")
        end
      else parseCliOptionsFrom rest options
  end.

Definition parseCliOptions (args : list jsstring) : Completion CliOptions :=
  parseCliOptionsFrom args
    {| summary := false; reportFile := None; reportFormat := lit "markdown" |}.

Section Git.
(** [execSync(command, ...)]: the command's output, or the error it throws. *)
Variable execSync : jsstring → Completion jsstring.

Definition determineBaseRef : jsstring :=
  match execSync (lit "git rev-parse --verify origin/" ++ lit "main") with
  | Normal _ => lit "origin/" ++ lit "main"
  | Throw _ =>
      match execSync (lit "git rev-parse --verify origin/" ++ lit "master") with
      | Normal _ => lit "origin/" ++ lit "master"
      | Throw _ => lit "HEAD~1"
      end
  end.

Definition getDiffEntries : list DiffEntry :=
  let baseRef := determineBaseRef in
  match execSync (lit "git diff --name-status " ++ baseRef ++ lit "...HEAD") with
  | Normal output =>
      let diffOutput := trim output in
      if bool_decide (diffOutput = []) then [] else parseDiffEntries diffOutput
  | Throw _ => []
  end.
End Git.

End ScoreboardCli.

(** * Vocabulary of the further properties *)

Module ScoreboardMoreSpec.
Import Scoreboard.

(** What [validateScoreboard] asks of one capability, the uniqueness of its id
    apart. *)
Definition wellFormed (capability : Capability) : Prop :=
  id capability ≠ [] ∧ description capability ≠ [] ∧
  state capability ∈ allowedStates.

(** The message for a state outside the enumeration. *)
Definition invalidStateMessage (capability : Capability) : jsstring :=
  lit "Capability " ++ id capability ++ lit " has invalid state " ++
  [QUOTE] ++ state capability ++ [QUOTE] ++
  lit ". Expected one of: spec-only, scaffold, operational.".

(** The row of a capability in the markdown report. *)
Definition reportRow (capability : Capability) : jsstring :=
  lit "| " ++ id capability ++ lit " | " ++ state capability ++ lit " | " ++
  description capability ++ lit " |".

End ScoreboardMoreSpec.

(** * enforce-policy-gated-adapter.ts: the summary and the script *)

Module PolicyGateCli.
Import PolicyGate.

(** U+2705 and U+274C, the icons of the summary and of the error lines. *)
Definition CHECK_MARK : N := 9989.
Definition CROSS_MARK : N := 10060.

(** [`${object.key}`]: the property's text, "undefined" when it is missing
    (which the declared type of a decision excludes). *)
Definition template (value : option jsstring) : jsstring :=
  match value with
  | Some s => s
  | None => lit "undefined"
  end.

Definition formatDecisionSummary (decision : PolicyDecision) : jsstring :=
  let icon :=
    if bool_decide (lookup_prop (lit "result") decision = Some (lit "PASS"))
    then [CHECK_MARK] else [CROSS_MARK] in
  let lines :=
    [ lit "## Policy-Gated Adapter Decision";
      [];
      icon ++ lit " **Result:** " ++ template (lookup_prop (lit "result") decision);
      lit "- Gate: `" ++ template (lookup_prop (lit "gate") decision) ++ lit "`";
      lit "- Adapter: `" ++ template (lookup_prop (lit "adapter") decision) ++ lit "`";
      lit "- Action: `" ++ template (lookup_prop (lit "action") decision) ++ lit "`";
      lit "- Reason: " ++ template (lookup_prop (lit "reason") decision);
      lit "- Policy Version: `" ++
        template (lookup_prop (lit "policyVersion") decision) ++ lit "`";
      lit "- Enforcement Mode: `" ++
        template (lookup_prop (lit "enforcementMode") decision) ++ lit "`";
      lit "- Evidence: " ++ template (lookup_prop (lit "evidence") decision);
      lit "- Timestamp: " ++ template (lookup_prop (lit "timestamp") decision) ] in
  join [LF] lines.

(** What the script asks of its process, besides the [Host] of the gate.
    [writeFileSync n path content] is the outcome of the write made after [n]
    earlier ones; [JSON_stringify] is [JSON.stringify(decision, null, 2)]. *)
Record Process := {
  env : jsstring → option jsstring;
  cwd : jsstring;
  (** [process.argv.slice(2)] *)
  argv : list jsstring;
  writeFileSync : nat → jsstring → jsstring → Completion unit;
  JSON_stringify : PolicyDecision → jsstring;
}.

(** What a run leaves behind, in order. *)
Inductive Effect :=
| Stdout (line : jsstring)
| Stderr (line : jsstring)
| Wrote (path content : jsstring).

(** How [main] ends: by returning, by [process.exit(code)], or by an error
    thrown to the top level. *)
Inductive Ending :=
| Returned
| Exited (code : N)
| Thrown (message : jsstring).

(** The loop of [main] over the arguments, after [written] writes: a flag
    counts only when a non-empty argument follows it, which the loop then
    skips. *)
Fixpoint writeOutputs (p : Process) (decision : PolicyDecision) (summary : jsstring)
    (args : list jsstring) (written : list Effect) : list Effect * Completion unit :=
  match args with
  | [] => (written, Normal ())
  | arg :: rest =>
      match rest with
      | (c :: value') :: rest' =>
          let value := c :: value' in
          if bool_decide (arg = lit "--json-out") then
            let content := JSON_stringify p decision ++ [LF] in
            match writeFileSync p (length written) value content with
            | Normal _ =>
                writeOutputs p decision summary rest' (written ++ [Wrote value content])
            | Throw message => (written, Throw message)
            end
          else if bool_decide (arg = lit "--summary-out") then
            let content := summary ++ [LF] in
            match writeFileSync p (length written) value content with
            | Normal _ =>
                writeOutputs p decision summary rest' (written ++ [Wrote value content])
            | Throw message => (written, Throw message)
            end
          else writeOutputs p decision summary rest written
      | _ => writeOutputs p decision summary rest written
      end
  end.

Definition main (h : Host) (p : Process) : list Effect * Ending :=
  match env p (lit "GITHUB_MODE_ADAPTER") with
  | Some (c :: adapterName') =>
      let adapterName := c :: adapterName' in
      match env p (lit "GITHUB_MODE_ACTION") with
      | Some (c' :: action') =>
          let action := c' :: action' in
          let root := cwd p in
          match enforcePolicyGatedAdapter h root adapterName action with
          | Throw message => ([], Thrown message)
          | Normal decision =>
              let summary := formatDecisionSummary decision in
              match writeOutputs p decision summary (argv p) [] with
              | (written, Throw message) => (written, Thrown message)
              | (written, Normal _) =>
                  let printed :=
                    written ++
                    [ Stdout summary;
                      Stdout ([LF] ++ lit "--- POLICY_DECISION_JSON ---");
                      Stdout (JSON_stringify p decision) ] in
                  if bool_decide (lookup_prop (lit "result") decision = Some (lit "FAIL"))
                  then (printed, Exited 1)
                  else (printed, Returned)
              end
          end
      | _ =>
          ([ Stderr ([CROSS_MARK] ++
                     lit " GITHUB_MODE_ACTION environment variable is required") ],
           Exited 1)
      end
  | _ =>
      ([ Stderr ([CROSS_MARK] ++
                 lit " GITHUB_MODE_ADAPTER environment variable is required") ],
       Exited 1)
  end.

Record Run := {
  effects : list Effect;
  exitCode : N;
}.

(** The script: [main] under the top-level handler, which prints the message
    of a thrown error and exits with 1. *)
Definition script (h : Host) (p : Process) : Run :=
  match main h p with
  | (done, Returned) => {| effects := done; exitCode := 0 |}
  | (done, Exited code) => {| effects := done; exitCode := code |}
  | (done, Thrown message) =>
      {| effects := done ++ [ Stderr ([CROSS_MARK] ++ lit " " ++ message) ];
         exitCode := 1 |}
  end.

End PolicyGateCli.

Module PolicyGateMoreSpec.
Import PolicyGate.
Import PolicyGateSpec.

(** The conditions under which the gate lets an action through. *)
Definition passConditions (h : Host) (root adapterName action : jsstring) : Prop :=
  ∃ commandPolicy adapterContracts adapters adapter constraint constraints allowedActions,
    readJson h COMMAND_POLICY_PATH root = Normal commandPolicy ∧
    getProp commandPolicy (lit "enforcementMode") =
      Normal (Some (JString (lit "enforce"))) ∧
    readJson h ADAPTER_CONTRACTS_PATH root = Normal adapterContracts ∧
    getProp adapterContracts (lit "adapters") = Normal (Some (JArray adapters)) ∧
    find (λ a, isNamed adapterName a) adapters = Some adapter ∧
    getProp adapter (lit "constraints") =
      Normal (Some (JArray (constraint :: constraints))) ∧
    getProp commandPolicy (lit "allowedActions") =
      Normal (Some (JArray allowedActions)) ∧
    JString action ∈ allowedActions.

(** The call gets as far as the test of the action: the policy is in mode
    "enforce" and the adapter is found with constraints. *)
Definition reachesActionCheck (h : Host) (root adapterName : jsstring)
    (commandPolicy : Json) : Prop :=
  ∃ adapterContracts adapters adapter constraint constraints,
    readJson h COMMAND_POLICY_PATH root = Normal commandPolicy ∧
    getProp commandPolicy (lit "enforcementMode") =
      Normal (Some (JString (lit "enforce"))) ∧
    readJson h ADAPTER_CONTRACTS_PATH root = Normal adapterContracts ∧
    getProp adapterContracts (lit "adapters") = Normal (Some (JArray adapters)) ∧
    find (λ a, isNamed adapterName a) adapters = Some adapter ∧
    getProp adapter (lit "constraints") =
      Normal (Some (JArray (constraint :: constraints))).

(** [constraints] as the gate wants it: an array with an element. *)
Definition nonEmptyArray (value : option Json) : bool :=
  match value with
  | Some (JArray (_ :: _)) => true
  | _ => false
  end.

(** [d.evidence], [d.policyVersion], [d.enforcementMode] *)
Definition evidenceOf (d : PolicyDecision) : option jsstring :=
  lookup_prop (lit "evidence") d.
Definition policyVersionOf (d : PolicyDecision) : option jsstring :=
  lookup_prop (lit "policyVersion") d.
Definition enforcementModeOf (d : PolicyDecision) : option jsstring :=
  lookup_prop (lit "enforcementMode") d.

(** The text of a field of the command policy as the decisions carry it. *)
Definition fieldText (commandPolicy : Json) (key : jsstring) : jsstring :=
  match getProp commandPolicy key with
  | Normal (Some (JString s)) => s
  | _ => lit "unknown"
  end.

(** What a decision reports for a field of the command policy: its text when
    the policy was read, "unknown" when it was not. *)
Definition reportedField (h : Host) (root key : jsstring) : jsstring :=
  match readJson h COMMAND_POLICY_PATH root with
  | Normal commandPolicy => fieldText commandPolicy key
  | Throw _ => lit "unknown"
  end.

(** Further hosts for the examples: an adapter listed twice, first without
    constraints; and file systems that lack one of the two documents. *)
Definition no_constraints_text : jsstring :=
  json_text (lit "{'adapters':[{'name':'repo-write','constraints':[]},{'name':'repo-write','constraints':['x']}]}").

Definition no_constraints_value : Json :=
  JObject [ (lit "adapters",
             JArray [ JObject [ (lit "name", JString (lit "repo-write"));
                                (lit "constraints", JArray []) ];
                      JObject [ (lit "name", JString (lit "repo-write"));
                                (lit "constraints", JArray [ JString (lit "x") ]) ] ]) ].

Definition noConstraintsHost : Host :=
  tableHost (filesOf policy_text no_constraints_text)
    ((no_constraints_text, no_constraints_value) :: documents)
    (lit "2026-02-20T00:00:00.000Z").

Definition missingContractsHost : Host :=
  tableHost [ (repo ++ lit "/" ++ COMMAND_POLICY_PATH, policy_text) ] documents
    (lit "2026-02-20T00:00:00.000Z").

Definition auditOnlyHost : Host :=
  tableHost [ (repo ++ lit "/" ++ COMMAND_POLICY_PATH, audit_mode_text) ] documents
    (lit "2026-02-20T00:00:00.000Z").

(** A process for the examples: both variables set, no arguments, writes that
    succeed, and a stand-in for [JSON.stringify]. *)
Definition exampleProcess (adapterName action : jsstring) (args : list jsstring)
  : PolicyGateCli.Process :=
  {| PolicyGateCli.env name :=
       if bool_decide (name = lit "GITHUB_MODE_ADAPTER") then Some adapterName
       else if bool_decide (name = lit "GITHUB_MODE_ACTION") then Some action
       else None;
     PolicyGateCli.cwd := repo;
     PolicyGateCli.argv := args;
     PolicyGateCli.writeFileSync _ _ _ := Normal ();
     PolicyGateCli.JSON_stringify d := lit "{...}" |}.

End PolicyGateMoreSpec.

(** * Properties *)

(** ** Strings and arrays *)

Lemma split_without_separator (sep : N) (s : jsstring) :
  sep ∉ s → split sep s = [s].
Proof.
  induction s as [|c s IH]; intros Hs; simpl; [done|].
  apply not_elem_of_cons in Hs as [Hc Hs].
  destruct (N.eqb_spec c sep) as [->|_]; [done|].
  by rewrite IH.
Qed.

Lemma Throw_eq {A} (m m' : jsstring) : @Throw A m = Throw m' → m = m'.
Proof. congruence. Qed.

Lemma startsWith_app (p s : jsstring) : startsWith (p ++ s) p = true.
Proof. induction p as [|c p IH]; simpl; [done|]. by rewrite N.eqb_refl. Qed.

Lemma startsWith_inv (s p : jsstring) :
  startsWith s p = true → ∃ post, s = p ++ post.
Proof.
  revert s. induction p as [|c p IH]; intros s H; simpl in *; [by exists s|].
  destruct s as [|d s]; [done|].
  apply andb_true_iff in H as [->%N.eqb_eq [post ->]%IH]. by exists post.
Qed.

Lemma str_includes_infix (pre needle post : jsstring) :
  str_includes (pre ++ needle ++ post) needle = true.
Proof.
  induction pre as [|c pre IH].
  - rewrite app_nil_l. destruct needle; simpl; [by destruct post|].
    by rewrite N.eqb_refl, startsWith_app.
  - simpl. rewrite IH. apply orb_true_r.
Qed.

Lemma str_includes_inv (s needle : jsstring) :
  str_includes s needle = true → ∃ pre post, s = pre ++ needle ++ post.
Proof.
  induction s as [|c s IH]; simpl; intros H.
  - rewrite orb_false_r in H. apply startsWith_inv in H as [post ->].
    by exists [], post.
  - apply orb_true_iff in H as [H|H].
    + apply startsWith_inv in H as [post ->]. by exists [], post.
    + destruct (IH H) as (pre & post & ->). by exists (c :: pre), post.
Qed.

(** A string includes whatever a part of it includes. *)
Lemma str_includes_app (pre s post needle : jsstring) :
  str_includes s needle = true → str_includes (pre ++ s ++ post) needle = true.
Proof.
  intros (a & b & ->)%str_includes_inv.
  replace (pre ++ (a ++ needle ++ b) ++ post)
    with ((pre ++ a) ++ needle ++ (b ++ post)) by by rewrite <- !app_assoc.
  apply str_includes_infix.
Qed.

Lemma str_includes_refl (s : jsstring) : str_includes s s = true.
Proof.
  rewrite <- (app_nil_r s) at 1. apply (str_includes_infix [] s []).
Qed.

Lemma str_includes_app_l (s post needle : jsstring) :
  str_includes s needle = true → str_includes (s ++ post) needle = true.
Proof. apply (str_includes_app [] s post). Qed.

Lemma str_includes_app_r (pre s needle : jsstring) :
  str_includes s needle = true → str_includes (pre ++ s) needle = true.
Proof.
  intros H. rewrite <- (app_nil_r s). by apply (str_includes_app pre s []).
Qed.

Lemma str_includes_quoted (pre x post : jsstring) :
  str_includes (pre ++ [QUOTE] ++ x ++ [QUOTE] ++ post) ([QUOTE] ++ x ++ [QUOTE]) = true.
Proof.
  replace (pre ++ [QUOTE] ++ x ++ [QUOTE] ++ post)
    with (pre ++ ([QUOTE] ++ x ++ [QUOTE]) ++ post) by by rewrite <- !app_assoc.
  apply str_includes_infix.
Qed.

(** Finds a literal needle in a concatenation some literal part of which
    includes it. *)
Ltac find_needle :=
  repeat first
    [ by vm_compute
    | apply str_includes_app_l; by vm_compute
    | apply str_includes_app_r ].

Lemma join_includes (sep : jsstring) (parts : list jsstring) (p : jsstring) :
  p ∈ parts → ∃ pre post, join sep parts = pre ++ p ++ post.
Proof.
  induction parts as [|q parts IH]; intros Hp; [by apply elem_of_nil in Hp|].
  apply elem_of_cons in Hp as [->|Hp].
  - destruct parts as [|r parts]; simpl.
    + exists [], []. by rewrite app_nil_r.
    + by exists [], (sep ++ join sep (r :: parts)).
  - destruct (IH Hp) as (pre & post & E).
    destruct parts as [|r parts]; [by apply elem_of_nil in Hp|].
    exists (q ++ sep ++ pre), post.
    change (join sep (q :: r :: parts)) with (q ++ sep ++ join sep (r :: parts)).
    rewrite E. by rewrite <- !app_assoc.
Qed.

Lemma sort_insert_Permutation {A} (cmp : A → A → Z) (x : A) (l : list A) :
  sort_insert cmp x l ≡ₚ x :: l.
Proof.
  induction l as [|y l IH]; simpl; [done|].
  destruct (cmp x y <=? 0)%Z; [done|].
  rewrite IH. apply Permutation_swap.
Qed.

Lemma toSorted_Permutation {A} (cmp : A → A → Z) (l : list A) :
  toSorted cmp l ≡ₚ l.
Proof.
  induction l as [|x l IH]; simpl; [done|].
  by rewrite sort_insert_Permutation, IH.
Qed.

Lemma set_add_elem_of (x y : jsstring) (s : list jsstring) :
  y ∈ set_add x s ↔ y = x ∨ y ∈ s.
Proof.
  unfold set_add. case_bool_decide as Hx.
  - split; [by right|]. by intros [->|?].
  - rewrite elem_of_app, list_elem_of_singleton. tauto.
Qed.

(** Sorting with a comparator that orders its arguments consistently: the sign
    flips with the arguments, and "not after" is transitive. *)
Section toSorted_sorted.
Context {A : Type} (cmp : A → A → Z).
Hypothesis cmp_flip : ∀ a b, Z.sgn (cmp b a) = (- Z.sgn (cmp a b))%Z.
Hypothesis cmp_trans :
  ∀ a b c, ascending cmp a b → ascending cmp b c → ascending cmp a c.

Lemma sort_insert_StronglySorted (x : A) (l : list A) :
  StronglySorted (ascending cmp) l →
  StronglySorted (ascending cmp) (sort_insert cmp x l).
Proof using cmp_flip cmp_trans.
  induction 1 as [|y l Hl IH Hy]; simpl.
  - repeat constructor.
  - destruct (Z.leb_spec (cmp x y) 0) as [Hxy|Hxy].
    + constructor; [by constructor|].
      constructor; [done|]. eapply Forall_impl; [exact Hy|].
      intros z Hz. by eapply cmp_trans.
    + constructor; [done|].
      rewrite sort_insert_Permutation. constructor; [|done].
      unfold ascending. pose proof (cmp_flip x y). lia.
Qed.

Lemma toSorted_StronglySorted (l : list A) :
  StronglySorted (ascending cmp) (toSorted cmp l).
Proof using cmp_flip cmp_trans.
  induction l; simpl; [constructor|by apply sort_insert_StronglySorted].
Qed.

(** Two orderings of the same elements sort to the same array when the
    comparator never ties two different elements. *)
Lemma toSorted_permutation_invariant (l1 l2 : list A) :
  l1 ≡ₚ l2 →
  (∀ a b, a ∈ l1 → b ∈ l1 → cmp a b = 0%Z → a = b) →
  toSorted cmp l1 = toSorted cmp l2.
Proof using cmp_flip cmp_trans.
  intros Hperm Hties.
  apply (StronglySorted_unique_strong (ascending cmp));
    [|apply toSorted_StronglySorted..|by rewrite !toSorted_Permutation].
  intros a b Ha Hb Hab Hba.
  rewrite toSorted_Permutation in Ha. rewrite toSorted_Permutation, <- Hperm in Hb.
  unfold ascending in *. apply Hties; [done..|].
  pose proof (cmp_flip a b). lia.
Qed.
End toSorted_sorted.

(** The default comparator is consistent, and ties only equal strings. *)
Ltac compare_units :=
  repeat match goal with
    | |- context [N.ltb ?x ?y] => destruct (N.ltb_spec x y)
    | |- context [N.eqb ?x ?y] => destruct (N.eqb_spec x y)
    | H : context [N.ltb ?x ?y] |- _ => destruct (N.ltb_spec x y)
    | H : context [N.eqb ?x ?y] |- _ => destruct (N.eqb_spec x y)
    end;
  simpl in *; subst; try done; try lia.

Lemma str_lt_asym (a b : jsstring) : str_lt a b = true → str_lt b a = false.
Proof.
  revert b. induction a as [|x a IH]; intros [|y b]; simpl; try done.
  intros H. compare_units. by apply IH.
Qed.

Lemma str_lt_connected (a b : jsstring) :
  str_lt a b = false → str_lt b a = false → a = b.
Proof.
  revert b. induction a as [|x a IH]; intros [|y b]; simpl; try done.
  intros H1 H2. compare_units. f_equal. by apply IH.
Qed.

Lemma str_lt_negatively_transitive (a b c : jsstring) :
  str_lt c a = true → str_lt b a = true ∨ str_lt c b = true.
Proof.
  revert a b. induction c as [|z c IH]; intros [|x a] [|y b]; simpl; try done;
    try (by left); try (by right); auto.
  intros H. compare_units; auto.
Qed.

Lemma defaultCompare_flip (a b : jsstring) :
  Z.sgn (defaultCompare b a) = (- Z.sgn (defaultCompare a b))%Z.
Proof.
  unfold defaultCompare.
  destruct (str_lt a b) eqn:Hab; [by rewrite (str_lt_asym _ _ Hab)|].
  by destruct (str_lt b a).
Qed.

Lemma defaultCompare_ascending (a b : jsstring) :
  ascending defaultCompare a b ↔ str_lt b a = false.
Proof.
  unfold ascending, defaultCompare.
  destruct (str_lt a b) eqn:Hab; [by rewrite (str_lt_asym _ _ Hab)|].
  by destruct (str_lt b a).
Qed.

Lemma defaultCompare_trans (a b c : jsstring) :
  ascending defaultCompare a b → ascending defaultCompare b c →
  ascending defaultCompare a c.
Proof.
  rewrite !defaultCompare_ascending. intros Hba Hcb.
  destruct (str_lt c a) eqn:Hca; [|done].
  destruct (str_lt_negatively_transitive a b c Hca); congruence.
Qed.

Lemma defaultCompare_zero (a b : jsstring) : defaultCompare a b = 0%Z → a = b.
Proof.
  unfold defaultCompare. intros H. apply str_lt_connected.
  - by destruct (str_lt a b).
  - destruct (str_lt a b); [done|]. by destruct (str_lt b a).
Qed.

Module ScoreboardFacts.
Import Scoreboard.
Import ScoreboardSpec.

(** ** The cases of the test suite, run on the embedding *)

Example test_isSpecArtifact :
  isSpecArtifact (lit ".GITHUB-MODE/docs/planning/phase-5.md") = true ∧
  isSpecArtifact (lit ".GITHUB-MODE/docs/planning/mvvp.md") = true ∧
  isSpecArtifact (lit ".GITHUB-MODE/docs/planning/README.md") = false ∧
  isSpecArtifact (lit ".GITHUB-MODE/docs/overview.md") = false ∧
  isSpecArtifact (lit ".GITHUB-MODE/runtime/implementation-scoreboard.json") = false.
Proof. repeat split; vm_compute; reflexivity. Qed.

Example test_parseDiffEntries :
  parseDiffEntries
    (lit "A" ++ [TAB] ++ lit ".GITHUB-MODE/docs/planning/phase-4.md" ++ [LF] ++
     lit "M" ++ [TAB] ++ lit "README.md")
  = [ {| status := lit "A"; path := lit ".GITHUB-MODE/docs/planning/phase-4.md" |};
      {| status := lit "M"; path := lit "README.md" |} ].
Proof. vm_compute. reflexivity. Qed.

Example test_getAddedSpecArtifacts :
  getAddedSpecArtifacts
    [ {| status := lit "A"; path := lit ".GITHUB-MODE/docs/planning/phase-4.md" |};
      {| status := lit "A"; path := lit ".GITHUB-MODE/docs/planning/README.md" |};
      {| status := lit "M"; path := SCOREBOARD_PATH |} ]
  = [ lit ".GITHUB-MODE/docs/planning/phase-4.md" ].
Proof. vm_compute. reflexivity. Qed.

Example test_hasScoreboardUpdate :
  hasScoreboardUpdate [ {| status := lit "M"; path := SCOREBOARD_PATH |} ] = true ∧
  hasScoreboardUpdate [ {| status := lit "D"; path := SCOREBOARD_PATH |} ] = false.
Proof. split; vm_compute; reflexivity. Qed.

Example test_enforceSpecToImplementationTracking :
  enforceSpecToImplementationTracking
    [ {| status := lit "A"; path := lit ".GITHUB-MODE/docs/planning/phase-6.md" |} ]
  = Throw
      (lit "New planning/spec artifacts were added without updating implementation scoreboard." ++
       [LF] ++ lit "Added artifacts:" ++
       [LF] ++ lit "  - .GITHUB-MODE/docs/planning/phase-6.md" ++
       [LF] ++ lit "Update .GITHUB-MODE/runtime/implementation-scoreboard.json in the same change to keep spec-vs-implementation tracking current.") ∧
  enforceSpecToImplementationTracking
    [ {| status := lit "A"; path := lit ".GITHUB-MODE/docs/planning/phase-6.md" |};
      {| status := lit "M"; path := SCOREBOARD_PATH |} ]
  = Normal ().
Proof. split; vm_compute; reflexivity. Qed.

Example test_validateScoreboard :
  validateScoreboard validScoreboard = Normal () ∧
  validateScoreboard duplicateIds = Throw (lit "Duplicate capability id found: same").
Proof. split; vm_compute; reflexivity. Qed.

Example test_getScoreCounts :
  getScoreCounts validScoreboard =
    {| spec_only := 1; scaffold := 1; operational := 1; stray := [] |} ∧
  str_includes (renderSummaryMarkdown validScoreboard) (lit "Operational: **1**") = true ∧
  str_includes (renderSummaryMarkdown validScoreboard)
    (lit "Implementation ratio (operational/total): **1/3**") = true.
Proof. repeat split; vm_compute; reflexivity. Qed.

Example test_buildParityReport :
  generatedAt (buildParityReport defaultCompare unsortedScoreboard) =
    lit "1970-01-01T00:00:00.000Z" ∧
  id <$> reportCapabilities (buildParityReport defaultCompare unsortedScoreboard) =
    [ lit "a"; lit "z" ].
Proof. split; vm_compute; reflexivity. Qed.

(** ** The diff parser *)

Lemma parseDiffEntries_lines (diffOutput : jsstring) :
  parseDiffEntries diffOutput = split LF diffOutput ≫= parseLine.
Proof.
  unfold parseDiffEntries.
  rewrite <- (app_nil_l (split LF diffOutput ≫= parseLine)).
  generalize (@nil DiffEntry) as acc.
  induction (split LF diffOutput) as [|l ls IH]; intros acc; simpl.
  - by rewrite app_nil_r.
  - rewrite IH. by rewrite <- app_assoc.
Qed.

Lemma parseDiffEntries_one_line (line : jsstring) :
  LF ∉ line → parseDiffEntries line = parseLine line.
Proof.
  intros Hline. rewrite parseDiffEntries_lines, split_without_separator by done.
  simpl. apply app_nil_r.
Qed.

(** C2, as stated, fails: a line of two tab-separated fields whose status
    begins with R yields one entry, not two. *)
Lemma parseDiffEntries_rename_two_fields :
  split TAB rename_without_destination = [ lit "R100"; lit "old.md" ] ∧
  isRenameOrCopy (lit "R100") = true ∧
  parseDiffEntries rename_without_destination =
    [ {| status := lit "R100"; path := lit "old.md" |} ].
Proof. by vm_compute. Qed.

(** C2 (amended): for a line with at least two tab-separated fields, a trimmed
    status beginning with R or C yields two entries, source then destination,
    both with that status, when a third field is present and not empty, and one
    entry (the source) when it is absent or empty; any other status yields
    exactly one entry. *)
Theorem parseDiffEntries_entries_per_line
    (line p0 p1 : jsstring) (rest : list jsstring) :
  LF ∉ line →
  split TAB line = p0 :: p1 :: rest →
  let source := {| status := trim p0; path := trim p1 |} in
  (isRenameOrCopy (trim p0) = true →
     ∀ p2, rest !! 0%nat = Some p2 → p2 ≠ [] →
       parseDiffEntries line = [ source; {| status := trim p0; path := trim p2 |} ]) ∧
  (isRenameOrCopy (trim p0) = true →
     rest !! 0%nat = None ∨ rest !! 0%nat = Some [] →
       parseDiffEntries line = [ source ]) ∧
  (isRenameOrCopy (trim p0) = false → parseDiffEntries line = [ source ]).
Proof.
  intros Hline Hparts source.
  rewrite parseDiffEntries_one_line by done.
  unfold parseLine, isRenameOrCopy. rewrite Hparts. cbv zeta.
  split; [|split].
  - intros -> p2 Hp2 Hne.
    destruct rest as [|r rest']; simplify_eq/=.
    by destruct p2.
  - intros -> [Hnone|Hempty].
    + by destruct rest.
    + by destruct rest as [|r rest']; simplify_eq/=.
  - by intros ->.
Qed.

Lemma parseDiffEntries_entries_per_line_witness :
  parseDiffEntries (lit "R100" ++ [TAB] ++ lit "old.md" ++ [TAB] ++ lit "new.md") =
    [ {| status := lit "R100"; path := lit "old.md" |};
      {| status := lit "R100"; path := lit "new.md" |} ].
Proof.
  refine (proj1 (parseDiffEntries_entries_per_line
            (lit "R100" ++ [TAB] ++ lit "old.md" ++ [TAB] ++ lit "new.md")
            (lit "R100") (lit "old.md") [lit "new.md"] _ _) _ (lit "new.md") _ _).
  - apply (bool_decide_unpack _). vm_compute. exact I.
  - reflexivity.
  - reflexivity.
  - reflexivity.
  - discriminate.
Defined.

(** ** The spec-tracking guard *)

Lemma additions_elem_of (entries : list DiffEntry) (acc : list jsstring) (x : jsstring) :
  x ∈ fold_left
        (λ additions entry,
           if bool_decide (status entry = lit "A") && isSpecArtifact (path entry)
           then set_add (path entry) additions
           else additions)
        entries acc
  ↔ x ∈ acc ∨ ∃ entry, entry ∈ entries ∧ isAddedSpec entry ∧ path entry = x.
Proof.
  revert acc. induction entries as [|e entries IH]; intros acc; simpl.
  - split; [by left|]. intros [?|(e & []%elem_of_nil & _)]; done.
  - rewrite IH. unfold isAddedSpec.
    destruct (bool_decide (status e = lit "A") && isSpecArtifact (path e)) eqn:Hadd.
    + apply andb_true_iff in Hadd as [Hst%bool_decide_eq_true Hspec].
      rewrite set_add_elem_of. split.
      * intros [[->|?]|(e' & ? & ? & ?)]; [right|by left|right].
        -- exists e. by rewrite elem_of_cons; auto.
        -- exists e'. by rewrite elem_of_cons; auto.
      * intros [?|(e' & [->|?]%elem_of_cons & ? & ?)]; [by left; right|by left; left|].
        right. by exists e'.
    + split.
      * intros [?|(e' & ? & ? & ?)]; [by left|right].
        exists e'. by rewrite elem_of_cons; auto.
      * intros [?|(e' & [->|?]%elem_of_cons & [Hst Hspec] & ?)]; [by left| |].
        -- rewrite Hspec, bool_decide_eq_true_2 in Hadd; done.
        -- right. by exists e'.
Qed.

Lemma getAddedSpecArtifacts_elem_of (entries : list DiffEntry) (x : jsstring) :
  x ∈ getAddedSpecArtifacts entries
  ↔ ∃ entry, entry ∈ entries ∧ isAddedSpec entry ∧ path entry = x.
Proof.
  unfold getAddedSpecArtifacts. rewrite toSorted_Permutation, additions_elem_of.
  split; [|by right]. by intros [[]%elem_of_nil|].
Qed.

Lemma hasScoreboardUpdate_true (entries : list DiffEntry) :
  hasScoreboardUpdate entries = true
  ↔ ∃ entry, entry ∈ entries ∧ isScoreboardChange entry.
Proof.
  unfold hasScoreboardUpdate, isScoreboardChange. rewrite existsb_exists.
  split; intros (e & He & H); exists e.
  - apply list_elem_of_In in He. split; [done|].
    apply andb_true_iff in H as [?%bool_decide_eq_true Hd%negb_true_iff].
    by apply bool_decide_eq_false in Hd.
  - apply list_elem_of_In in He. split; [done|]. destruct H as [Hp Hd].
    by rewrite (bool_decide_eq_true_2 _ Hp), (bool_decide_eq_false_2 _ Hd).
Qed.

(** C5: the guard throws exactly when some entry adds a spec artifact and no
    entry touches the scoreboard file with a status other than D; the message
    then lists every added artifact and names the scoreboard path; in every
    other case, no additions included, it returns normally. *)
Theorem enforceSpecToImplementationTracking_throws_iff (entries : list DiffEntry) :
  ((∃ message, enforceSpecToImplementationTracking entries = Throw message)
   ↔ (∃ entry, entry ∈ entries ∧ isAddedSpec entry) ∧
     ¬ (∃ entry, entry ∈ entries ∧ isScoreboardChange entry)) ∧
  (∀ message, enforceSpecToImplementationTracking entries = Throw message →
     str_includes message SCOREBOARD_PATH = true ∧
     ∀ entry, entry ∈ entries → isAddedSpec entry →
       str_includes message (lit "  - " ++ path entry) = true) ∧
  ((∀ entry, entry ∈ entries → ¬ isAddedSpec entry) →
     enforceSpecToImplementationTracking entries = Normal ()).
Proof.
  unfold enforceSpecToImplementationTracking.
  pose proof (getAddedSpecArtifacts_elem_of entries) as Hadded.
  pose proof (hasScoreboardUpdate_true entries) as Hupd.
  destruct (getAddedSpecArtifacts entries) as [|a added] eqn:Ea;
    cbn [length Nat.eqb].
  - (* no additions *)
    split; [|split]; [|done|done].
    split; [by intros [? ?]|].
    intros [(e & He & Hadd) _].
    exfalso. eapply not_elem_of_nil, Hadded. by exists e.
  - assert (Hsome : ∃ entry, entry ∈ entries ∧ isAddedSpec entry).
    { destruct (proj1 (Hadded a)) as (e & ? & ? & _); [by left|]. by exists e. }
    destruct (hasScoreboardUpdate entries) eqn:Eu; cbn [negb].
    + split; [|split]; [|done|].
      * split; [by intros [? ?]|]. intros [_ Hno]. destruct Hno. by apply Hupd.
      * intros Hnone. destruct Hsome as (e & He & Hadd). by destruct (Hnone e).
    + split; [|split].
      * split; [|by eexists]. intros _. split; [done|].
        intros Hex. apply Hupd in Hex. done.
      * intros message <-%Throw_eq. split.
        -- match goal with |- str_includes (join ?sep ?parts) _ = true =>
             destruct (join_includes sep parts
                         (lit "Update " ++ SCOREBOARD_PATH ++
                          lit " in the same change to keep spec-vs-implementation tracking current."))
               as (pre & post & ->)
           end.
           { rewrite !elem_of_app, list_elem_of_singleton. auto. }
           apply str_includes_app, (str_includes_infix (lit "Update ")).
        -- intros e He Hadd.
           match goal with |- str_includes (join ?sep ?parts) _ = true =>
             destruct (join_includes sep parts (lit "  - " ++ path e))
               as (pre & post & ->)
           end.
           { rewrite !elem_of_app, list_elem_of_fmap.
             right; left. exists (path e). split; [done|].
             apply Hadded. by exists e. }
           apply (str_includes_infix pre _ post).
      * intros Hnone. destruct Hsome as (e & He & Hadd). by destruct (Hnone e).
Qed.

(** ** The scoreboard *)

Lemma validateCapabilities_states (ids : gset jsstring) (cs : list Capability) :
  validateCapabilities ids cs = Normal () →
  Forall (λ capability, state capability ∈ allowedStates) cs.
Proof.
  revert ids. induction cs as [|c cs IH]; intros ids; simpl; [by constructor|].
  destruct (bool_decide (id c = []) || bool_decide (description c = [])); [done|].
  destruct (bool_decide (id c ∈ ids)); [done|].
  case_bool_decide as Hstate; [|done]. simpl.
  intros H. constructor; [done|by eapply IH].
Qed.

Lemma validateScoreboard_states (scoreboard : Scoreboard) :
  validateScoreboard scoreboard = Normal () →
  Forall (λ capability, state capability ∈ allowedStates) (capabilities scoreboard).
Proof.
  unfold validateScoreboard. destruct (length _ =? 0)%nat; [done|].
  apply validateCapabilities_states.
Qed.

Lemma countState_cons (s : jsstring) (c : Capability) (cs : list Capability) :
  countState s (c :: cs) =
  (if bool_decide (state c = s) then 1 else 0) + countState s cs.
Proof.
  unfold countState. rewrite filter_cons.
  case_bool_decide; case_decide; try done; simpl; lia.
Qed.

Lemma countState_Permutation (s : jsstring) (cs cs' : list Capability) :
  cs ≡ₚ cs' → countState s cs = countState s cs'.
Proof. unfold countState. by intros ->. Qed.

Lemma fold_increment_allowed (cs : list Capability) (counts : Counts) :
  Forall (λ capability, state capability ∈ allowedStates) cs →
  fold_left (λ counts capability, increment (state capability) counts) cs counts =
  {| spec_only := spec_only counts + countState (lit "spec-only") cs;
     scaffold := scaffold counts + countState (lit "scaffold") cs;
     operational := operational counts + countState (lit "operational") cs;
     stray := stray counts |}.
Proof.
  intros Hcs. revert counts.
  induction Hcs as [|c cs Hc Hcs IH]; intros counts.
  - destruct counts. simpl. f_equal; unfold countState; simpl; lia.
  - cbn [fold_left]. rewrite IH, !countState_cons.
    unfold allowedStates in Hc.
    rewrite !elem_of_cons in Hc.
    destruct Hc as [->|[->|[->|[]%elem_of_nil]]];
      unfold increment;
      repeat match goal with
        | |- context [bool_decide (lit ?a = lit ?b)] =>
            let b' := eval vm_compute in (bool_decide (lit a = lit b)) in
            change (bool_decide (lit a = lit b)) with b'
        end;
      cbn [spec_only scaffold operational stray]; f_equal; lia.
Qed.

Lemma countState_total (cs : list Capability) :
  Forall (λ capability, state capability ∈ allowedStates) cs →
  countState (lit "spec-only") cs + countState (lit "scaffold") cs +
  countState (lit "operational") cs = N.of_nat (length cs).
Proof.
  induction 1 as [|c cs Hc Hcs IH]; [done|].
  rewrite !countState_cons. unfold allowedStates in Hc.
  rewrite !elem_of_cons in Hc.
  destruct Hc as [->|[->|[->|[]%elem_of_nil]]];
    repeat match goal with
      | |- context [bool_decide (lit ?a = lit ?b)] =>
          let b' := eval vm_compute in (bool_decide (lit a = lit b)) in
          change (bool_decide (lit a = lit b)) with b'
      end;
    cbn [length]; lia.
Qed.

(** C9: on a scoreboard that validation accepts, the three per-state counts
    add up to the number of capabilities, which is also the report's
    [totalCapabilities]; the report carries those same counts, and the loop
    created no property besides the three. *)
Theorem getScoreCounts_sum_is_total
    (localeCompare : jsstring → jsstring → Z) (scoreboard : Scoreboard) :
  validateScoreboard scoreboard = Normal () →
  let counts := getScoreCounts scoreboard in
  let report := buildParityReport localeCompare scoreboard in
  spec_only counts + scaffold counts + operational counts =
    N.of_nat (length (capabilities scoreboard)) ∧
  totalCapabilities report = N.of_nat (length (capabilities scoreboard)) ∧
  Scoreboard.counts report = counts ∧
  stray counts = [].
Proof.
  intros Hvalid%validateScoreboard_states. cbv zeta.
  unfold buildParityReport, getScoreCounts.
  rewrite fold_increment_allowed by done.
  cbn [spec_only scaffold operational stray totalCapabilities Scoreboard.counts].
  rewrite !N.add_0_l. split; [|done].
  by apply countState_total.
Qed.

Lemma getScoreCounts_sum_is_total_witness :
  spec_only (getScoreCounts validScoreboard) +
  scaffold (getScoreCounts validScoreboard) +
  operational (getScoreCounts validScoreboard) = 3.
Proof.
  refine (proj1 (getScoreCounts_sum_is_total defaultCompare validScoreboard _)).
  vm_compute. reflexivity.
Defined.

(** ** The parity report *)

Lemma getScoreCounts_Permutation (scoreboard scoreboard' : Scoreboard) :
  capabilities scoreboard' ≡ₚ capabilities scoreboard →
  Forall (λ capability, state capability ∈ allowedStates) (capabilities scoreboard) →
  getScoreCounts scoreboard' = getScoreCounts scoreboard.
Proof.
  intros Hperm Hstates. unfold getScoreCounts.
  rewrite !fold_increment_allowed by (by rewrite ?Hperm).
  by rewrite !(countState_Permutation _ _ _ Hperm).
Qed.

Lemma renderSummaryMarkdown_Permutation (scoreboard scoreboard' : Scoreboard) :
  capabilities scoreboard' ≡ₚ capabilities scoreboard →
  Forall (λ capability, state capability ∈ allowedStates) (capabilities scoreboard) →
  renderSummaryMarkdown scoreboard' = renderSummaryMarkdown scoreboard.
Proof.
  intros Hperm Hstates. unfold renderSummaryMarkdown.
  by rewrite (getScoreCounts_Permutation _ _ Hperm Hstates), (Permutation_length Hperm).
Qed.

(** C3, as stated, fails: two capabilities whose ids compare equal keep their
    input order (the sort is stable), so reordering the input reorders the
    report. Shown with the code-unit comparison as collation; any collation
    gives [0] on two equal ids. *)
Lemma buildParityReport_depends_on_input_order :
  capabilities duplicateIds_swapped ≡ₚ capabilities duplicateIds ∧
  version duplicateIds_swapped = version duplicateIds ∧
  reportCapabilities (buildParityReport defaultCompare duplicateIds) =
    capabilities duplicateIds ∧
  reportCapabilities (buildParityReport defaultCompare duplicateIds_swapped) =
    capabilities duplicateIds_swapped ∧
  buildParityReport defaultCompare duplicateIds_swapped ≠
    buildParityReport defaultCompare duplicateIds.
Proof.
  split; [apply Permutation_swap|].
  split; [done|]. split; [by vm_compute|]. split; [by vm_compute|].
  intros H. apply (f_equal reportCapabilities) in H. vm_compute in H. discriminate.
Qed.

(** C3 (amended): the report's [generatedAt] is the fixed epoch timestamp and
    nothing in it reads a clock; its capabilities are those of the input,
    sorted ascending by id in the order of [localeCompare] (a consistent
    comparator: antisymmetric in sign and transitive); and the report is the
    same for any reordering of the input, provided [localeCompare] ties no two
    different capabilities of the scoreboard and every state is one of the
    three enumerated ones. *)
Theorem buildParityReport_sorted_and_stable_under_reordering
    (localeCompare : jsstring → jsstring → Z) (scoreboard : Scoreboard) :
  (∀ a b, Z.sgn (localeCompare b a) = (- Z.sgn (localeCompare a b))%Z) →
  (∀ a b c, (localeCompare a b <= 0)%Z → (localeCompare b c <= 0)%Z →
            (localeCompare a c <= 0)%Z) →
  let report := buildParityReport localeCompare scoreboard in
  generatedAt report = lit "1970-01-01T00:00:00.000Z" ∧
  reportCapabilities report ≡ₚ capabilities scoreboard ∧
  StronglySorted (λ a b, (localeCompare (id a) (id b) <= 0)%Z)
    (reportCapabilities report) ∧
  ∀ scoreboard',
    version scoreboard' = version scoreboard →
    capabilities scoreboard' ≡ₚ capabilities scoreboard →
    (∀ a b, a ∈ capabilities scoreboard → b ∈ capabilities scoreboard →
            localeCompare (id a) (id b) = 0%Z → a = b) →
    Forall (λ capability, state capability ∈ allowedStates)
      (capabilities scoreboard) →
    buildParityReport localeCompare scoreboard' = report.
Proof.
  intros Hflip Htrans report. subst report. unfold buildParityReport.
  cbn [generatedAt reportCapabilities].
  split; [done|]. split; [apply toSorted_Permutation|].
  split.
  { apply (toSorted_StronglySorted (λ a b, localeCompare (id a) (id b))).
    - intros a b. apply Hflip.
    - intros a b c. apply Htrans. }
  intros scoreboard' Hversion Hperm Hties Hstates.
  rewrite (getScoreCounts_Permutation _ _ Hperm Hstates).
  rewrite (renderSummaryMarkdown_Permutation _ _ Hperm Hstates).
  rewrite Hversion. f_equal.
  - by rewrite Hperm.
  - symmetry.
    apply (toSorted_permutation_invariant (λ a b, localeCompare (id a) (id b)));
      [intros a b; apply Hflip|intros a b c; apply Htrans|done|done].
Qed.

Lemma buildParityReport_sorted_and_stable_under_reordering_witness :
  generatedAt (buildParityReport defaultCompare unsortedScoreboard) =
    lit "1970-01-01T00:00:00.000Z" ∧
  id <$> reportCapabilities (buildParityReport defaultCompare unsortedScoreboard) =
    [ lit "a"; lit "z" ].
Proof.
  split; [|reflexivity].
  exact (proj1 (buildParityReport_sorted_and_stable_under_reordering
                  defaultCompare unsortedScoreboard
                  (λ a b, defaultCompare_flip a b) defaultCompare_trans)).
Defined.

End ScoreboardFacts.

Module PolicyGateFacts.
Import PolicyGate.
Import PolicyGateSpec.

(** ** Shape of a decision *)

(** Every return statement builds its object with [decision] on the same base. *)
Lemma enforcePolicyGatedAdapter_returns
    (h : Host) (root adapterName action : jsstring) (d : PolicyDecision) :
  enforcePolicyGatedAdapter h root adapterName action = Normal d →
  ∃ result reason evidence policyVersion enforcementMode,
    d = decision (base h adapterName action)
          result reason evidence policyVersion enforcementMode ∧
    (result = PASS ∨ result = FAIL).
Proof.
  unfold enforcePolicyGatedAdapter, base.
  unfold mbind, Completion_bind.
  repeat match goal with
    | |- match ?x with _ => _ end = _ → _ => destruct x
    end;
    intros H; try discriminate;
    apply (f_equal (λ c, match c with Normal x => x | Throw _ => [] end)) in H;
    subst d; do 5 eexists; (split; [reflexivity|]); auto.
Qed.

Lemma decision_fields (h : Host)
    (adapterName action result reason evidence policyVersion enforcementMode : jsstring) :
  let d := decision (base h adapterName action)
             result reason evidence policyVersion enforcementMode in
  d.*1 = DECISION_FIELDS ∧
  lookup_prop (lit "gate") d = Some (lit "policy-gated-adapter") ∧
  lookup_prop (lit "adapter") d = Some adapterName ∧
  lookup_prop (lit "action") d = Some action ∧
  lookup_prop (lit "timestamp") d = Some (now_toISOString h) ∧
  lookup_prop (lit "result") d = Some result ∧
  lookup_prop (lit "reason") d = Some reason ∧
  lookup_prop (lit "evidence") d = Some evidence ∧
  lookup_prop (lit "policyVersion") d = Some policyVersion ∧
  lookup_prop (lit "enforcementMode") d = Some enforcementMode.
Proof. cbv zeta. repeat split; vm_compute; reflexivity. Qed.

(** The fixture of the test suite passes the gate. *)
Example enforcePolicyGatedAdapter_passes :
  enforcePolicyGatedAdapter (validHost (lit "2026-02-20T00:00:00.000Z"))
    repo (lit "repo-write") (lit "open-pr")
  = Normal
      [ (lit "gate", lit "policy-gated-adapter"); (lit "adapter", lit "repo-write");
        (lit "action", lit "open-pr"); (lit "timestamp", lit "2026-02-20T00:00:00.000Z");
        (lit "result", lit "PASS");
        (lit "reason",
         lit "adapter " ++ [QUOTE] ++ lit "repo-write" ++ [QUOTE] ++
         lit " with action " ++ [QUOTE] ++ lit "open-pr" ++ [QUOTE] ++
         lit " passed policy gate (enforcement: enforce, policy: v1.0.0)");
        (lit "evidence",
         lit ".GITHUB-MODE/runtime/command-policy.json, .GITHUB-MODE/runtime/adapter-contracts.json");
        (lit "policyVersion", lit "v1.0.0"); (lit "enforcementMode", lit "enforce") ].
Proof. vm_compute. reflexivity. Qed.

(** ** C1: a document that parses to [null] *)

(** C1 fails on the code: when command-policy.json holds the JSON text [null],
    reading [commandPolicy.policyVersion] throws a TypeError outside both
    [try] blocks, and the caller gets an exception instead of a FAIL record. *)
Theorem enforcePolicyGatedAdapter_throws_on_null_policy :
  readJson nullPolicyHost COMMAND_POLICY_PATH repo = Normal JNull ∧
  enforcePolicyGatedAdapter nullPolicyHost repo (lit "repo-write") (lit "open-pr")
  = Throw (lit "Cannot read properties of null (reading 'policyVersion')").
Proof. split; vm_compute; reflexivity. Qed.

(** The same happens with adapter-contracts.json, and [join] throws on an
    element that shadows [toString]; a file that cannot be read or parsed is
    reported as a FAIL record, as the [try] blocks intend. *)
Example enforcePolicyGatedAdapter_other_exceptions :
  enforcePolicyGatedAdapter nullContractsHost repo (lit "repo-write") (lit "open-pr")
  = Throw (lit "Cannot read properties of null (reading 'adapters')") ∧
  enforcePolicyGatedAdapter shadowingHost repo (lit "repo-write") (lit "open-pr")
  = Throw (lit "Cannot convert object to primitive value") ∧
  (d ← enforcePolicyGatedAdapter missingPolicyHost repo (lit "repo-write") (lit "open-pr");
   Normal (resultOf d, reasonOf d, lookup_prop (lit "policyVersion") d))
  = Normal (Some FAIL,
            Some (lit "failed to read command-policy.json: ENOENT: no such file or directory, open '/repo/.GITHUB-MODE/runtime/command-policy.json'"),
            Some (lit "unknown")).
Proof. repeat split; vm_compute; reflexivity. Qed.

(** These are the only ways to an exception: a document that parses to [null],
    or the [join] of the denial message. *)
Lemma enforcePolicyGatedAdapter_throws_only_when
    (h : Host) (root adapterName action message : jsstring) :
  enforcePolicyGatedAdapter h root adapterName action = Throw message →
  readJson h COMMAND_POLICY_PATH root = Normal JNull ∨
  readJson h ADAPTER_CONTRACTS_PATH root = Normal JNull ∨
  ∃ commandPolicy allowedActions,
    readJson h COMMAND_POLICY_PATH root = Normal commandPolicy ∧
    getProp commandPolicy (lit "allowedActions") = Normal (Some (JArray allowedActions)) ∧
    joinJson (lit ", ") allowedActions = Throw message.
Proof.
  unfold enforcePolicyGatedAdapter.
  destruct (readJson h COMMAND_POLICY_PATH root) as [commandPolicy|?] eqn:Hpolicy; [|done].
  destruct commandPolicy as [| | | | |props]; try (by left);
    cbn [getProp mbind Completion_bind strictEqualsString negb]; try done.
  destruct (negb (strictEqualsString _ _)); [done|].
  destruct (readJson h ADAPTER_CONTRACTS_PATH root) as [adapterContracts|?] eqn:Hcontracts; [|done].
  destruct adapterContracts as [| | | | |props']; try (by right; left);
    cbn [getProp mbind Completion_bind]; try done.
  destruct (lookup_prop (lit "adapters") props') as [[| | | |adapters|]|]; try done.
  destruct (find _ adapters) as [adapter|] eqn:Hfind; [|done].
  apply find_some in Hfind as [_ Hnamed].
  destruct adapter as [| | | | |aprops]; try done.
  cbn [getProp mbind Completion_bind].
  destruct (lookup_prop (lit "constraints") aprops) as [[| | | |[|c cs]|]|]; try done.
  destruct (lookup_prop (lit "allowedActions") props) as [[| | | |allowed|]|] eqn:Hallowed;
    try done.
  destruct (negb (includesString allowed action)); [|done].
  destruct (joinJson (lit ", ") allowed) as [?|m] eqn:Hjoin; [done|].
  intros <-%Throw_eq. right; right. exists (JObject props), allowed.
  split; [done|]. split; [|done]. cbn [getProp]. by rewrite Hallowed.
Qed.

(** ** C8: every decision is complete *)

(** C8: a decision the gate returns, PASS or FAIL, has exactly the nine fields,
    each holding a string; [gate] is the constant, [adapter] and [action] echo
    the arguments, [result] is PASS or FAIL, and [timestamp] is the clock
    reading of the call. *)
Theorem enforcePolicyGatedAdapter_decision_complete
    (h : Host) (root adapterName action : jsstring) (d : PolicyDecision) :
  enforcePolicyGatedAdapter h root adapterName action = Normal d →
  d.*1 = DECISION_FIELDS ∧
  (∀ field, field ∈ DECISION_FIELDS → is_Some (lookup_prop field d)) ∧
  lookup_prop (lit "gate") d = Some (lit "policy-gated-adapter") ∧
  lookup_prop (lit "adapter") d = Some adapterName ∧
  lookup_prop (lit "action") d = Some action ∧
  lookup_prop (lit "timestamp") d = Some (now_toISOString h) ∧
  (lookup_prop (lit "result") d = Some PASS ∨
   lookup_prop (lit "result") d = Some FAIL).
Proof.
  intros (result & reason & evidence & pv & em & -> & Hresult)%enforcePolicyGatedAdapter_returns.
  destruct (decision_fields h adapterName action result reason evidence pv em)
    as (Hkeys & Hgate & Hadapter & Haction & Htime & Hres & Hreason & Hev & Hpv & Hem).
  split; [done|]. split; [|split; [done|split; [done|split; [done|split; [done|]]]]].
  - intros field Hfield. unfold DECISION_FIELDS in Hfield.
    rewrite !elem_of_cons in Hfield.
    destruct Hfield as [->|[->|[->|[->|[->|[->|[->|[->|[->|[]%elem_of_nil]]]]]]]]];
      by eexists.
  - rewrite Hres. destruct Hresult as [->| ->]; auto.
Qed.

Lemma enforcePolicyGatedAdapter_decision_complete_witness :
  lookup_prop (lit "gate")
    [ (lit "gate", lit "policy-gated-adapter"); (lit "adapter", lit "repo-write");
      (lit "action", lit "delete"); (lit "timestamp", lit "2026-02-20T00:00:00.000Z");
      (lit "result", lit "FAIL");
      (lit "reason",
       lit "action " ++ [QUOTE] ++ lit "delete" ++ [QUOTE] ++
       lit " is not in allowedActions (allowed: plan, validate, open-pr) " ++
       [EM_DASH] ++ lit " policy denial");
      (lit "evidence", lit ".GITHUB-MODE/runtime/command-policy.json");
      (lit "policyVersion", lit "v1.0.0"); (lit "enforcementMode", lit "enforce") ]
  = Some (lit "policy-gated-adapter").
Proof.
  refine (proj1 (proj2 (proj2
    (enforcePolicyGatedAdapter_decision_complete
       (validHost (lit "2026-02-20T00:00:00.000Z")) repo
       (lit "repo-write") (lit "delete") _ _)))).
  vm_compute. reflexivity.
Defined.

(** ** C7, C4: the reasons of two denials *)

Section decision_accessors.
Context (h : Host)
  (adapterName action result reason evidence policyVersion enforcementMode : jsstring).

Lemma resultOf_decision :
  resultOf (decision (base h adapterName action)
              result reason evidence policyVersion enforcementMode) = Some result.
Proof. apply decision_fields. Qed.

Lemma reasonOf_decision :
  reasonOf (decision (base h adapterName action)
              result reason evidence policyVersion enforcementMode) = Some reason.
Proof. apply decision_fields. Qed.

Lemma enforcementMode_decision :
  lookup_prop (lit "enforcementMode")
    (decision (base h adapterName action)
       result reason evidence policyVersion enforcementMode) = Some enforcementMode.
Proof. apply decision_fields. Qed.
End decision_accessors.

Lemma getProp_of_non_null (value : Json) (key key' : jsstring) (x : option Json) :
  getProp value key = Normal x → ∃ y, getProp value key' = Normal y.
Proof. destruct value; simpl; intros H; try done; by eexists. Qed.

Lemma find_isNamed_None (adapterName : jsstring) (adapters : list Json) :
  (∀ props, JObject props ∈ adapters →
            lookup_prop (lit "name") props ≠ Some (JString adapterName)) →
  find (λ a, isNamed adapterName a) adapters = None.
Proof.
  induction adapters as [|a adapters IH]; intros Hnone; simpl; [done|].
  rewrite IH by (intros props Hp; apply Hnone; by right).
  destruct a as [| | | | |props]; simpl; try done.
  specialize (Hnone props (list_elem_of_here _ _)).
  unfold strictEqualsString.
  destruct (lookup_prop (lit "name") props) as [[| | |name| |]|]; try done.
  case_bool_decide; [by subst|done].
Qed.

(** C7: with a readable command policy in mode "enforce" and an [adapters]
    array in which no object is named [adapterName], the gate returns FAIL and
    the reason contains both "not found" and "fail-closed". *)
Theorem enforcePolicyGatedAdapter_adapter_not_found
    (h : Host) (root adapterName action : jsstring)
    (commandPolicy adapterContracts : Json) (adapters : list Json) :
  readJson h COMMAND_POLICY_PATH root = Normal commandPolicy →
  getProp commandPolicy (lit "enforcementMode") =
    Normal (Some (JString (lit "enforce"))) →
  readJson h ADAPTER_CONTRACTS_PATH root = Normal adapterContracts →
  getProp adapterContracts (lit "adapters") = Normal (Some (JArray adapters)) →
  (∀ props, JObject props ∈ adapters →
            lookup_prop (lit "name") props ≠ Some (JString adapterName)) →
  ∃ d reason,
    enforcePolicyGatedAdapter h root adapterName action = Normal d ∧
    resultOf d = Some FAIL ∧
    reasonOf d = Some reason ∧
    str_includes reason (lit "not found") = true ∧
    str_includes reason (lit "fail-closed") = true.
Proof.
  intros Hpolicy Hmode Hcontracts Hadapters Hnone.
  unfold enforcePolicyGatedAdapter. rewrite Hpolicy.
  destruct (getProp_of_non_null _ _ (lit "policyVersion") _ Hmode) as [pv ->].
  rewrite Hmode. cbn [mbind Completion_bind].
  replace (strictEqualsString (Some (JString (lit "enforce"))) (lit "enforce"))
    with true by by vm_compute.
  cbn [negb]. rewrite Hcontracts, Hadapters. cbn [mbind Completion_bind].
  rewrite (find_isNamed_None _ _ Hnone).
  eexists _, _. split; [reflexivity|].
  split; [apply (resultOf_decision h)|]. split; [apply (reasonOf_decision h)|].
  split; find_needle.
Qed.

Lemma enforcePolicyGatedAdapter_adapter_not_found_witness :
  ∃ d reason,
    enforcePolicyGatedAdapter (validHost (lit "2026-02-20T00:00:00.000Z"))
      repo (lit "nonexistent-adapter") (lit "open-pr") = Normal d ∧
    resultOf d = Some FAIL ∧
    reasonOf d = Some reason ∧
    str_includes reason (lit "not found") = true ∧
    str_includes reason (lit "fail-closed") = true.
Proof.
  refine (enforcePolicyGatedAdapter_adapter_not_found
            (validHost (lit "2026-02-20T00:00:00.000Z")) repo
            (lit "nonexistent-adapter") (lit "open-pr")
            policy_value contracts_value
            [ JObject [ (lit "name", JString (lit "repo-write"));
                        (lit "constraints",
                         JArray [ JString (lit "No direct writes to protected branches.") ]) ] ]
            _ _ _ _ _).
  - vm_compute. reflexivity.
  - vm_compute. reflexivity.
  - vm_compute. reflexivity.
  - vm_compute. reflexivity.
  - intros props Hp. apply list_elem_of_singleton in Hp.
    injection Hp as ->. vm_compute. discriminate.
Defined.

(** C4, as stated, fails: with [enforcementMode] the number 42 the gate
    returns FAIL, but the reason names the mode "unknown" and does not contain
    42. *)
Lemma enforcePolicyGatedAdapter_numeric_mode_reported_unknown :
  (mode ← readJson numericModeHost COMMAND_POLICY_PATH repo
            ≫= (λ policy, getProp policy (lit "enforcementMode"));
   observedModeText mode) = Normal (lit "42") ∧
  (d ← enforcePolicyGatedAdapter numericModeHost repo (lit "repo-write") (lit "open-pr");
   Normal (resultOf d, reasonOf d))
  = Normal (Some FAIL,
            Some (lit "command-policy enforcementMode is " ++ [QUOTE] ++
                  lit "unknown" ++ [QUOTE] ++ lit ", expected " ++ [QUOTE] ++
                  lit "enforce" ++ [QUOTE] ++ lit " " ++ [EM_DASH] ++
                  lit " fail-closed denial")) ∧
  str_includes
    (lit "command-policy enforcementMode is " ++ [QUOTE] ++
     lit "unknown" ++ [QUOTE] ++ lit ", expected " ++ [QUOTE] ++
     lit "enforce" ++ [QUOTE] ++ lit " " ++ [EM_DASH] ++
     lit " fail-closed denial")
    (lit "42") = false.
Proof. repeat split; vm_compute; reflexivity. Qed.

(** C4 (amended): for every command policy document that is read and is not
    [null], if [enforcementMode] is not the string "enforce" the gate returns
    FAIL; the reason quotes the observed mode when it is a string and the
    word "unknown" when it is absent or not a string, and the decision's
    [enforcementMode] field holds the same text. *)
Theorem enforcePolicyGatedAdapter_mode_not_enforce
    (h : Host) (root adapterName action : jsstring)
    (commandPolicy : Json) (mode : option Json) :
  readJson h COMMAND_POLICY_PATH root = Normal commandPolicy →
  getProp commandPolicy (lit "enforcementMode") = Normal mode →
  mode ≠ Some (JString (lit "enforce")) →
  let observed := match mode with Some (JString s) => s | _ => lit "unknown" end in
  ∃ d reason,
    enforcePolicyGatedAdapter h root adapterName action = Normal d ∧
    resultOf d = Some FAIL ∧
    reasonOf d = Some reason ∧
    str_includes reason ([QUOTE] ++ observed ++ [QUOTE]) = true ∧
    lookup_prop (lit "enforcementMode") d = Some observed.
Proof.
  intros Hpolicy Hmode Hne observed.
  unfold enforcePolicyGatedAdapter. rewrite Hpolicy.
  destruct (getProp_of_non_null _ _ (lit "policyVersion") _ Hmode) as [pv ->].
  rewrite Hmode. cbn [mbind Completion_bind].
  assert (strictEqualsString mode (lit "enforce") = false) as ->.
  { destruct mode as [[| | |s| |]|]; simpl; try done.
    case_bool_decide; [by subst|done]. }
  cbn [negb]. fold observed.
  eexists _, _. split; [reflexivity|].
  split; [apply (resultOf_decision h)|]. split; [apply (reasonOf_decision h)|].
  split; [|apply (enforcementMode_decision h)].
  apply str_includes_quoted.
Qed.

Lemma enforcePolicyGatedAdapter_mode_not_enforce_witness :
  ∃ d reason,
    enforcePolicyGatedAdapter auditModeHost repo (lit "repo-write") (lit "open-pr")
      = Normal d ∧
    resultOf d = Some FAIL ∧
    reasonOf d = Some reason ∧
    str_includes reason ([QUOTE] ++ lit "audit" ++ [QUOTE]) = true ∧
    lookup_prop (lit "enforcementMode") d = Some (lit "audit").
Proof.
  refine (enforcePolicyGatedAdapter_mode_not_enforce auditModeHost repo
            (lit "repo-write") (lit "open-pr") audit_mode_value
            (Some (JString (lit "audit"))) _ _ _).
  - vm_compute. reflexivity.
  - vm_compute. reflexivity.
  - intros H. vm_compute in H. discriminate.
Defined.

(** ** C6: what two calls on the same files share *)

Lemma decision_same_but_timestamp (t1 t2 : jsstring)
    (adapterName action result reason evidence policyVersion enforcementMode : jsstring) :
  same_but_timestamp
    (Normal (decision
               [ (lit "gate", lit "policy-gated-adapter"); (lit "adapter", adapterName);
                 (lit "action", action); (lit "timestamp", t1) ]
               result reason evidence policyVersion enforcementMode))
    (Normal (decision
               [ (lit "gate", lit "policy-gated-adapter"); (lit "adapter", adapterName);
                 (lit "action", action); (lit "timestamp", t2) ]
               result reason evidence policyVersion enforcementMode)).
Proof.
  split; [done|]. intros field Hfield.
  unfold decision. cbn [app lookup_prop].
  repeat case_bool_decide; congruence.
Qed.

(** C6, as stated, fails: two calls on the same root, adapter, action and
    files return different records when the clock has advanced between
    them. *)
Lemma enforcePolicyGatedAdapter_records_differ_by_clock :
  (∀ fullPath,
     readFileSync (validHost (lit "2026-02-20T00:00:00.000Z")) fullPath =
     readFileSync (validHost (lit "2026-02-20T00:00:01.000Z")) fullPath) ∧
  (d ← enforcePolicyGatedAdapter (validHost (lit "2026-02-20T00:00:00.000Z"))
         repo (lit "repo-write") (lit "open-pr");
   Normal (lookup_prop (lit "timestamp") d))
    = Normal (Some (lit "2026-02-20T00:00:00.000Z")) ∧
  (d ← enforcePolicyGatedAdapter (validHost (lit "2026-02-20T00:00:01.000Z"))
         repo (lit "repo-write") (lit "open-pr");
   Normal (lookup_prop (lit "timestamp") d))
    = Normal (Some (lit "2026-02-20T00:00:01.000Z")) ∧
  enforcePolicyGatedAdapter (validHost (lit "2026-02-20T00:00:00.000Z"))
    repo (lit "repo-write") (lit "open-pr")
  ≠ enforcePolicyGatedAdapter (validHost (lit "2026-02-20T00:00:01.000Z"))
      repo (lit "repo-write") (lit "open-pr").
Proof.
  split; [done|]. split; [by vm_compute|]. split; [by vm_compute|].
  intros H. vm_compute in H. discriminate.
Qed.

Lemma enforcePolicyGatedAdapter_same_documents
    (h1 h2 : Host) (root adapterName action : jsstring) :
  readJson h1 COMMAND_POLICY_PATH root = readJson h2 COMMAND_POLICY_PATH root →
  readJson h1 ADAPTER_CONTRACTS_PATH root = readJson h2 ADAPTER_CONTRACTS_PATH root →
  same_but_timestamp
    (enforcePolicyGatedAdapter h1 root adapterName action)
    (enforcePolicyGatedAdapter h2 root adapterName action) ∧
  (now_toISOString h1 = now_toISOString h2 →
   enforcePolicyGatedAdapter h1 root adapterName action =
   enforcePolicyGatedAdapter h2 root adapterName action).
Proof.
  intros Hpolicy Hcontracts.
  unfold enforcePolicyGatedAdapter. rewrite Hpolicy, Hcontracts.
  unfold mbind, Completion_bind.
  repeat match goal with
    | |- same_but_timestamp (match ?x with _ => _ end) _ ∧ _ => destruct x
    end;
    (split; [first [apply decision_same_but_timestamp|done]|congruence]).
Qed.

(** C6 (amended): two calls with the same root, adapter name and action, on
    the same platform and with the same contents of the two contract files,
    end the same way; the records they return have the same fields and agree
    on every one of them except [timestamp], which holds each call's own clock
    reading, and they are identical when the two readings coincide. *)
Theorem enforcePolicyGatedAdapter_reproducible
    (h1 h2 : Host) (root adapterName action : jsstring) :
  (∀ filePath, path_join h1 root filePath = path_join h2 root filePath) →
  (∀ text, JSON_parse h1 text = JSON_parse h2 text) →
  (∀ filePath, filePath ∈ [COMMAND_POLICY_PATH; ADAPTER_CONTRACTS_PATH] →
     readFileSync h1 (path_join h1 root filePath) =
     readFileSync h2 (path_join h1 root filePath)) →
  same_but_timestamp
    (enforcePolicyGatedAdapter h1 root adapterName action)
    (enforcePolicyGatedAdapter h2 root adapterName action) ∧
  (now_toISOString h1 = now_toISOString h2 →
   enforcePolicyGatedAdapter h1 root adapterName action =
   enforcePolicyGatedAdapter h2 root adapterName action).
Proof.
  intros Hjoin Hparse Hfiles.
  assert (∀ filePath, filePath ∈ [COMMAND_POLICY_PATH; ADAPTER_CONTRACTS_PATH] →
            readJson h1 filePath root = readJson h2 filePath root) as Hread.
  { intros filePath Hin. unfold readJson.
    rewrite <- Hjoin, (Hfiles _ Hin).
    destruct (readFileSync h2 _); [apply Hparse|done]. }
  apply enforcePolicyGatedAdapter_same_documents; apply Hread; set_solver.
Qed.

Lemma enforcePolicyGatedAdapter_reproducible_witness :
  same_but_timestamp
    (enforcePolicyGatedAdapter (validHost (lit "2026-02-20T00:00:00.000Z"))
       repo (lit "repo-write") (lit "open-pr"))
    (enforcePolicyGatedAdapter (validHost (lit "2026-02-20T00:00:01.000Z"))
       repo (lit "repo-write") (lit "open-pr")).
Proof.
  refine (proj1 (enforcePolicyGatedAdapter_reproducible
            (validHost (lit "2026-02-20T00:00:00.000Z"))
            (validHost (lit "2026-02-20T00:00:01.000Z"))
            repo (lit "repo-write") (lit "open-pr") _ _ _)).
  - reflexivity.
  - reflexivity.
  - reflexivity.
Defined.

End PolicyGateFacts.

Module AliasingFacts.
Import Scoreboard.
Import Aliasing.
Import ScoreboardSpec.

(** ** The report is built from copies *)

Lemma alloc_lookup (elements : list Capability) (σ : Store) :
  (alloc elements σ).2 !! (alloc elements σ).1 = Some elements.
Proof. unfold alloc. cbn [fst snd]. by apply list_lookup_middle. Qed.

Lemma alloc_preserves (elements array : list Capability) (σ : Store) (r : nat) :
  σ !! r = Some array → (alloc elements σ).2 !! r = Some array.
Proof. intros H. unfold alloc. cbn [fst snd]. by apply lookup_app_l_Some. Qed.

(** C10: [buildParityReport] leaves its input as it was: after the call the
    scoreboard's capabilities array holds the same elements in the same order,
    and so does every array that existed before; the array placed in the
    report is a new object, not allocated before the call and distinct from
    the input's, holding the sorted elements. *)
Theorem buildParityReport_does_not_mutate_input
    (localeCompare : jsstring → jsstring → Z)
    (scoreboard : ScoreboardObject) (σ : Store) (elements : list Capability) :
  σ !! capabilitiesRef scoreboard = Some elements →
  ∃ report σ',
    Aliasing.buildParityReport localeCompare scoreboard σ = Some (report, σ') ∧
    σ' !! capabilitiesRef scoreboard = Some elements ∧
    (∀ r array, σ !! r = Some array → σ' !! r = Some array) ∧
    σ !! objCapabilitiesRef report = None ∧
    objCapabilitiesRef report ≠ capabilitiesRef scoreboard ∧
    σ' !! objCapabilitiesRef report =
      Some (toSorted (λ a b, localeCompare (id a) (id b)) elements) ∧
    derefReport report σ' =
      Some (Scoreboard.buildParityReport localeCompare
              {| version := objVersion scoreboard; capabilities := elements |}).
Proof.
  intros Hinput.
  unfold Aliasing.buildParityReport, deref. rewrite Hinput.
  cbn [mbind option_bind capabilities].
  pose proof (alloc_lookup elements σ) as Hcopy.
  destruct (alloc elements σ) as [copy σ1] eqn:E1. cbn [fst snd] in Hcopy.
  rewrite Hcopy. cbn [mbind option_bind].
  set (sortedElements := toSorted (λ a b, localeCompare (id a) (id b)) elements).
  pose proof (alloc_lookup sortedElements σ1) as Hsorted.
  destruct (alloc sortedElements σ1) as [sorted σ2] eqn:E2. cbn [fst snd] in Hsorted.
  assert (∀ r array, σ !! r = Some array → σ2 !! r = Some array) as Hkeep.
  { intros r array Hr.
    replace σ2 with (alloc sortedElements σ1).2 by by rewrite E2.
    apply alloc_preserves.
    replace σ1 with (alloc elements σ).2 by by rewrite E1.
    by apply alloc_preserves. }
  assert (sorted = S (length σ)) as Hfresh.
  { unfold alloc in E1, E2. simplify_eq. rewrite length_app. simpl. lia. }
  assert (σ !! sorted = None) as Hnew.
  { apply lookup_ge_None. lia. }
  eexists _, _. split; [reflexivity|].
  cbn [objCapabilitiesRef].
  split; [by apply Hkeep|]. split; [done|]. split; [done|].
  split; [intros ->; congruence|]. split; [done|].
  unfold derefReport. cbn [objCapabilitiesRef]. rewrite Hsorted. done.
Qed.

Lemma buildParityReport_does_not_mutate_input_witness :
  ∃ report σ',
    Aliasing.buildParityReport defaultCompare
      {| objVersion := 2; capabilitiesRef := 0 |} exampleStore = Some (report, σ') ∧
    σ' !! 0%nat = Some (capabilities unsortedScoreboard) ∧
    objCapabilitiesRef report ≠ 0%nat.
Proof.
  destruct (buildParityReport_does_not_mutate_input defaultCompare
              {| objVersion := 2; capabilitiesRef := 0 |} exampleStore
              (capabilities unsortedScoreboard) eq_refl)
    as (report & σ' & Hrun & Hinput & _ & _ & Hne & _).
  by exists report, σ'.
Defined.

End AliasingFacts.

(** * Further properties of check-implementation-scoreboard.ts *)

Module ValidationFacts.
Import Scoreboard.
Import ScoreboardSpec.
Import ScoreboardMoreSpec.

(** ** What validation accepts, and what it reports *)

Lemma validateCapabilities_Normal (ids : gset jsstring) (cs : list Capability) :
  validateCapabilities ids cs = Normal () ↔
  Forall wellFormed cs ∧ NoDup (id <$> cs) ∧ ∀ c, c ∈ cs → id c ∉ ids.
Proof.
  revert ids. induction cs as [|c cs IH]; intros ids.
  - simpl. split; [|done]. intros _. split; [constructor|].
    split; [constructor|]. by intros c []%elem_of_nil.
  - cbn [validateCapabilities]. rewrite fmap_cons, NoDup_cons, Forall_cons.
    unfold wellFormed at 1.
    destruct (decide (id c = [])) as [Hid|Hid].
    { rewrite (bool_decide_eq_true_2 _ Hid). simpl. split; [done|tauto]. }
    rewrite (bool_decide_eq_false_2 _ Hid).
    destruct (decide (description c = [])) as [Hd|Hd].
    { rewrite (bool_decide_eq_true_2 _ Hd). simpl. split; [done|tauto]. }
    rewrite (bool_decide_eq_false_2 _ Hd). cbn [orb].
    destruct (decide (id c ∈ ids)) as [Hin|Hin].
    { rewrite (bool_decide_eq_true_2 _ Hin). split; [done|].
      intros (_ & _ & Hfresh). destruct (Hfresh c); [by left|done]. }
    rewrite (bool_decide_eq_false_2 _ Hin).
    destruct (decide (state c ∈ allowedStates)) as [Hs|Hs].
    2:{ rewrite (bool_decide_eq_false_2 _ Hs). simpl. split; [done|tauto]. }
    rewrite (bool_decide_eq_true_2 _ Hs). cbn [negb]. rewrite IH.
    split.
    + intros (Hwf & Hnd & Hfresh). split; [done|]. split.
      * split; [|done]. intros (c' & Hc' & Hin')%list_elem_of_fmap.
        apply (Hfresh c' Hin'). rewrite <- Hc'.
        apply elem_of_union_l. by apply elem_of_singleton.
      * intros c' [->|Hin']%elem_of_cons; [done|].
        specialize (Hfresh c' Hin'). intros ?. apply Hfresh. by apply elem_of_union_r.
    + intros ((_ & Hwf) & (Hnotin & Hnd) & Hfresh). split; [done|]. split; [done|].
      intros c' Hin'. rewrite elem_of_union, elem_of_singleton.
      intros [Heq|Hold].
      * apply Hnotin. rewrite <- Heq. by apply list_elem_of_fmap_2.
      * apply (Hfresh c'); [by right|done].
Qed.

(** X1: validation accepts exactly the scoreboards with at least one
    capability, in which every capability has a non-empty id and description
    and an enumerated state, and no two capabilities share an id. *)
Theorem validateScoreboard_accepts_iff (scoreboard : Scoreboard) :
  validateScoreboard scoreboard = Normal () ↔
  capabilities scoreboard ≠ [] ∧
  Forall wellFormed (capabilities scoreboard) ∧
  NoDup (id <$> capabilities scoreboard).
Proof.
  unfold validateScoreboard.
  destruct (capabilities scoreboard) as [|c cs] eqn:E.
  - simpl. split; [done|]. by intros [? _].
  - cbn [length Nat.eqb]. rewrite validateCapabilities_Normal.
    split; [intros (? & ? & _); done|]. intros (_ & ? & ?).
    split; [done|]. split; [done|]. intros ? _. apply not_elem_of_empty.
Qed.

Lemma validateCapabilities_app (ids : gset jsstring) (pre rest : list Capability) :
  Forall wellFormed pre → NoDup (id <$> pre) → (∀ c, c ∈ pre → id c ∉ ids) →
  validateCapabilities ids (pre ++ rest) =
  validateCapabilities (list_to_set (id <$> pre) ∪ ids) rest.
Proof.
  revert ids. induction pre as [|c pre IH]; intros ids Hwf Hnd Hfresh.
  - simpl. f_equal. by rewrite (left_id_L ∅ (∪)).
  - apply Forall_cons in Hwf as [(Hid & Hd & Hs) Hwf].
    rewrite fmap_cons in Hnd. apply NoDup_cons in Hnd as [Hnotin Hnd].
    cbn [app validateCapabilities].
    rewrite (bool_decide_eq_false_2 _ Hid), (bool_decide_eq_false_2 _ Hd).
    cbn [orb].
    rewrite (bool_decide_eq_false_2 (id c ∈ ids)) by (apply Hfresh; by left).
    rewrite (bool_decide_eq_true_2 _ Hs). cbn [negb].
    rewrite IH; [|done|done|].
    + f_equal. rewrite fmap_cons, list_to_set_cons.
      rewrite (comm_L (∪) {[id c]} (list_to_set _)). by rewrite <- (assoc_L (∪)).
    + intros c' Hin'. rewrite elem_of_union, elem_of_singleton.
      intros [Heq|Hold].
      * apply Hnotin. rewrite <- Heq. by apply list_elem_of_fmap_2.
      * apply (Hfresh c'); [by right|done].
Qed.

(** X2: validation stops at the first capability that fails a check, and on it
    at the first check that fails, in the order: empty id or description,
    id already seen, state outside the enumeration. The message of a duplicate
    names the id. *)
Theorem validateScoreboard_first_offender
    (scoreboard : Scoreboard) (pre post : list Capability) (c : Capability) :
  capabilities scoreboard = pre ++ c :: post →
  Forall wellFormed pre →
  NoDup (id <$> pre) →
  (id c = [] ∨ description c = [] →
     validateScoreboard scoreboard =
       Throw (lit "Each capability requires non-empty id and description fields.")) ∧
  (id c ≠ [] → description c ≠ [] → id c ∈ id <$> pre →
     validateScoreboard scoreboard =
       Throw (lit "Duplicate capability id found: " ++ id c)) ∧
  (id c ≠ [] → description c ≠ [] → id c ∉ id <$> pre →
   state c ∉ allowedStates →
     validateScoreboard scoreboard = Throw (invalidStateMessage c)).
Proof.
  intros Hcaps Hwf Hnd.
  assert (validateScoreboard scoreboard =
          validateCapabilities (list_to_set (id <$> pre)) (c :: post)) as ->.
  { unfold validateScoreboard. rewrite Hcaps.
    replace (length (pre ++ c :: post) =? 0)%nat with false
      by (rewrite length_app; simpl; symmetry; apply Nat.eqb_neq; lia).
    rewrite validateCapabilities_app; [|done|done|intros ? _; apply not_elem_of_empty].
    f_equal. by rewrite (right_id_L ∅ (∪)). }
  cbn [validateCapabilities].
  split; [|split].
  - intros [Hid|Hd].
    + by rewrite (bool_decide_eq_true_2 _ Hid).
    + rewrite (bool_decide_eq_true_2 (description c = []) Hd).
      by rewrite orb_true_r.
  - intros Hid Hd Hin.
    rewrite (bool_decide_eq_false_2 _ Hid), (bool_decide_eq_false_2 _ Hd).
    cbn [orb]. rewrite bool_decide_eq_true_2; [done|].
    by apply elem_of_list_to_set.
  - intros Hid Hd Hnotin Hs.
    rewrite (bool_decide_eq_false_2 _ Hid), (bool_decide_eq_false_2 _ Hd).
    cbn [orb]. rewrite bool_decide_eq_false_2 by (by rewrite elem_of_list_to_set).
    rewrite (bool_decide_eq_false_2 _ Hs). cbn [negb].
    f_equal.
Qed.

Lemma validateScoreboard_first_offender_witness :
  validateScoreboard duplicateIds =
    Throw (lit "Duplicate capability id found: " ++ lit "same").
Proof.
  refine (proj1 (proj2 (validateScoreboard_first_offender duplicateIds
            [ {| id := lit "same"; description := lit "x"; state := lit "operational";
                 evidence := None |} ]
            []
            {| id := lit "same"; description := lit "y"; state := lit "scaffold";
               evidence := None |} eq_refl _ _)) _ _ _).
  - apply Forall_singleton. repeat split; [discriminate..|].
    apply (bool_decide_unpack _). vm_compute. exact I.
  - apply NoDup_singleton.
  - discriminate.
  - discriminate.
  - by left.
Defined.

End ValidationFacts.

Module CountFacts.
Import Scoreboard.
Import ScoreboardSpec.
Import ScoreboardMoreSpec.
Import ScoreboardFacts.

(** ** The counts of any scoreboard *)

Lemma increment_counts (s : jsstring) (counts : Counts) :
  spec_only (increment s counts) =
    spec_only counts + (if bool_decide (s = lit "spec-only") then 1 else 0) ∧
  scaffold (increment s counts) =
    scaffold counts + (if bool_decide (s = lit "scaffold") then 1 else 0) ∧
  operational (increment s counts) =
    operational counts + (if bool_decide (s = lit "operational") then 1 else 0).
Proof.
  unfold increment.
  repeat case_bool_decide; subst;
    try match goal with
      | H : lit _ = lit _ |- _ => by vm_compute in H
      end;
    cbn [spec_only scaffold operational]; repeat split; lia.
Qed.

Lemma fold_increment_counts (cs : list Capability) (counts : Counts) :
  let result :=
    fold_left (λ counts capability, increment (state capability) counts) cs counts in
  spec_only result = spec_only counts + countState (lit "spec-only") cs ∧
  scaffold result = scaffold counts + countState (lit "scaffold") cs ∧
  operational result = operational counts + countState (lit "operational") cs.
Proof.
  cbv zeta. revert counts. induction cs as [|c cs IH]; intros counts.
  - unfold countState. simpl. repeat split; lia.
  - cbn [fold_left]. rewrite !countState_cons.
    destruct (IH (increment (state c) counts)) as (-> & -> & ->).
    destruct (increment_counts (state c) counts) as (-> & -> & ->).
    repeat split; lia.
Qed.

Lemma countState_others (cs : list Capability) :
  countState (lit "spec-only") cs + countState (lit "scaffold") cs +
  countState (lit "operational") cs +
  N.of_nat (length (filter (λ capability, state capability ∉ allowedStates) cs))
  = N.of_nat (length cs).
Proof.
  induction cs as [|c cs IH]; [done|].
  rewrite !countState_cons, filter_cons. cbn [length].
  unfold allowedStates in *.
  destruct (decide (state c ∉ _)) as [Hout|Hin].
  - rewrite !bool_decide_eq_false_2
      by (intros E; apply Hout; rewrite E, !elem_of_cons; auto).
    cbn [length]. lia.
  - apply dec_stable in Hin. rewrite !elem_of_cons in Hin.
    destruct Hin as [->|[->|[->|[]%elem_of_nil]]];
      repeat match goal with
        | |- context [bool_decide (lit ?a = lit ?b)] =>
            let b' := eval vm_compute in (bool_decide (lit a = lit b)) in
            change (bool_decide (lit a = lit b)) with b'
        end;
      cbv iota; lia.
Qed.

Lemma getScoreCounts_countState (scoreboard : Scoreboard) :
  spec_only (getScoreCounts scoreboard) =
    countState (lit "spec-only") (capabilities scoreboard) ∧
  scaffold (getScoreCounts scoreboard) =
    countState (lit "scaffold") (capabilities scoreboard) ∧
  operational (getScoreCounts scoreboard) =
    countState (lit "operational") (capabilities scoreboard).
Proof.
  unfold getScoreCounts.
  destruct (fold_increment_counts (capabilities scoreboard)
              {| spec_only := 0; scaffold := 0; operational := 0; stray := [] |})
    as (-> & -> & ->).
  cbn [spec_only scaffold operational]. by rewrite !N.add_0_l.
Qed.

(** X3: for every scoreboard, valid or not, each of the three counts is the
    number of capabilities in that state; a capability whose state is outside
    the enumeration adds to none of them, so the three counts and the number
    of such capabilities add up to the length. *)
Theorem getScoreCounts_counts_each_state (scoreboard : Scoreboard) :
  let counts := getScoreCounts scoreboard in
  spec_only counts = countState (lit "spec-only") (capabilities scoreboard) ∧
  scaffold counts = countState (lit "scaffold") (capabilities scoreboard) ∧
  operational counts = countState (lit "operational") (capabilities scoreboard) ∧
  spec_only counts + scaffold counts + operational counts +
  N.of_nat (length (filter (λ capability, state capability ∉ allowedStates)
                      (capabilities scoreboard)))
  = N.of_nat (length (capabilities scoreboard)).
Proof.
  cbv zeta.
  destruct (getScoreCounts_countState scoreboard) as (-> & -> & ->).
  repeat split; try done. apply countState_others.
Qed.

(** X4: the summary is the same for every ordering of the capabilities,
    whatever their states. *)
Theorem renderSummaryMarkdown_order_independent (scoreboard scoreboard' : Scoreboard) :
  capabilities scoreboard' ≡ₚ capabilities scoreboard →
  renderSummaryMarkdown scoreboard' = renderSummaryMarkdown scoreboard.
Proof.
  intros Hperm. unfold renderSummaryMarkdown.
  destruct (getScoreCounts_countState scoreboard) as (-> & -> & ->).
  destruct (getScoreCounts_countState scoreboard') as (-> & -> & ->).
  by rewrite !(countState_Permutation _ _ _ Hperm), (Permutation_length Hperm).
Qed.

Lemma renderSummaryMarkdown_order_independent_witness :
  renderSummaryMarkdown duplicateIds_swapped = renderSummaryMarkdown duplicateIds.
Proof.
  apply renderSummaryMarkdown_order_independent. apply Permutation_swap.
Defined.

End CountFacts.

Module ArtifactFacts.
Import Scoreboard.
Import ScoreboardSpec.
Import ScoreboardFacts.

(** ** The added artifacts *)

Lemma set_add_NoDup (x : jsstring) (s : list jsstring) :
  NoDup s → NoDup (set_add x s).
Proof.
  intros Hs. unfold set_add. case_bool_decide as Hx; [done|].
  apply NoDup_app. split; [done|]. split; [|apply NoDup_singleton].
  intros y Hy ->%list_elem_of_singleton. done.
Qed.

Lemma additions_NoDup (entries : list DiffEntry) (acc : list jsstring) :
  NoDup acc →
  NoDup (fold_left
           (λ additions entry,
              if bool_decide (status entry = lit "A") && isSpecArtifact (path entry)
              then set_add (path entry) additions
              else additions)
           entries acc).
Proof.
  revert acc. induction entries as [|e entries IH]; intros acc Hacc; [done|].
  simpl. apply IH.
  destruct (bool_decide _ && _); [by apply set_add_NoDup|done].
Qed.

Lemma getAddedSpecArtifacts_NoDup (entries : list DiffEntry) :
  NoDup (getAddedSpecArtifacts entries).
Proof.
  unfold getAddedSpecArtifacts. rewrite toSorted_Permutation.
  apply additions_NoDup, NoDup_nil_2.
Qed.

Lemma ascending_NoDup_strict (l : list jsstring) :
  StronglySorted (ascending defaultCompare) l → NoDup l →
  StronglySorted (λ a b, str_lt a b = true) l.
Proof.
  induction 1 as [|x l Hl IH Hx]; intros Hnd; [constructor|].
  apply NoDup_cons in Hnd as [Hnotin Hnd].
  constructor; [by apply IH|].
  rewrite Forall_forall in Hx. apply Forall_forall. intros y Hy.
  specialize (Hx y Hy). apply defaultCompare_ascending in Hx.
  destruct (str_lt x y) eqn:Hxy; [done|].
  destruct Hnotin. by rewrite (str_lt_connected x y Hxy Hx).
Qed.

Lemma getAddedSpecArtifacts_StronglySorted (entries : list DiffEntry) :
  StronglySorted (λ a b, str_lt a b = true) (getAddedSpecArtifacts entries).
Proof.
  apply ascending_NoDup_strict; [|apply getAddedSpecArtifacts_NoDup].
  apply toSorted_StronglySorted.
  - intros a b. apply defaultCompare_flip.
  - apply defaultCompare_trans.
Qed.

(** X5: the added artifacts are exactly the paths of the entries with status A
    that are spec artifacts, each path once however often it was listed, in
    strictly ascending code-unit order. *)
Theorem getAddedSpecArtifacts_strictly_ascending (entries : list DiffEntry) :
  StronglySorted (λ a b, str_lt a b = true) (getAddedSpecArtifacts entries) ∧
  NoDup (getAddedSpecArtifacts entries) ∧
  ∀ artifact,
    artifact ∈ getAddedSpecArtifacts entries ↔
    ∃ entry, entry ∈ entries ∧ status entry = lit "A" ∧
             isSpecArtifact (path entry) = true ∧ path entry = artifact.
Proof.
  split; [apply getAddedSpecArtifacts_StronglySorted|].
  split; [apply getAddedSpecArtifacts_NoDup|].
  intros artifact. rewrite getAddedSpecArtifacts_elem_of. unfold isAddedSpec.
  split; intros (e & He & H); exists e; tauto.
Qed.

(** X6: the result depends only on which entries occur, not on their order or
    on repetitions. *)
Theorem getAddedSpecArtifacts_set_of_entries (entries entries' : list DiffEntry) :
  (∀ entry, entry ∈ entries ↔ entry ∈ entries') →
  getAddedSpecArtifacts entries = getAddedSpecArtifacts entries'.
Proof.
  intros Hsame.
  apply (StronglySorted_unique_strong (λ a b, str_lt a b = true));
    [|apply getAddedSpecArtifacts_StronglySorted..|].
  - intros a b _ _ Hab Hba. by rewrite (str_lt_asym _ _ Hab) in Hba.
  - apply NoDup_Permutation; [apply getAddedSpecArtifacts_NoDup..|].
    intros x. rewrite !getAddedSpecArtifacts_elem_of.
    split; intros (e & He & H); exists e; (split; [by apply Hsame|done]).
Qed.

Lemma getAddedSpecArtifacts_set_of_entries_witness :
  getAddedSpecArtifacts
    [ {| status := lit "A"; path := lit ".GITHUB-MODE/docs/planning/b.md" |};
      {| status := lit "A"; path := lit ".GITHUB-MODE/docs/planning/a.md" |};
      {| status := lit "A"; path := lit ".GITHUB-MODE/docs/planning/b.md" |} ]
  = getAddedSpecArtifacts
      [ {| status := lit "A"; path := lit ".GITHUB-MODE/docs/planning/a.md" |};
        {| status := lit "A"; path := lit ".GITHUB-MODE/docs/planning/b.md" |} ].
Proof.
  apply getAddedSpecArtifacts_set_of_entries.
  intros entry. rewrite !elem_of_cons, !elem_of_nil. tauto.
Defined.

(** ** Which paths are spec artifacts *)

Lemma startsWith_common_prefix (x s p : jsstring) :
  startsWith (x ++ s) (x ++ p) = startsWith s p.
Proof. induction x as [|c x IH]; [done|]. simpl. by rewrite N.eqb_refl. Qed.

Lemma endsWith_app (s p : jsstring) : endsWith (s ++ p) p = true.
Proof. unfold endsWith. rewrite rev_app_distr. apply startsWith_app. Qed.

Lemma endsWith_common_suffix (s p x : jsstring) :
  endsWith (s ++ x) (p ++ x) = endsWith s p.
Proof.
  unfold endsWith. rewrite !rev_app_distr. apply startsWith_common_prefix.
Qed.

(** X7: a markdown file under the planning directory is a spec artifact unless
    it is a README.md, in that directory or in any directory below it; a name
    that merely ends in README.md is an artifact. *)
Theorem isSpecArtifact_under_planning (stem : jsstring) :
  isSpecArtifact (SPEC_ARTIFACT_PREFIX ++ stem ++ lit ".md") =
  negb (endsWith (SPEC_ARTIFACT_PREFIX ++ stem) (lit "/README")).
Proof.
  unfold isSpecArtifact.
  rewrite startsWith_app.
  replace (SPEC_ARTIFACT_PREFIX ++ stem ++ lit ".md")
    with ((SPEC_ARTIFACT_PREFIX ++ stem) ++ lit ".md") by by rewrite <- app_assoc.
  rewrite endsWith_app.
  change (lit "/README.md") with (lit "/README" ++ lit ".md").
  by rewrite endsWith_common_suffix.
Qed.

End ArtifactFacts.

Module ParserFacts.
Import Scoreboard.
Import ScoreboardSpec.
Import ScoreboardFacts.

(** ** The diff parser on whole outputs *)

Lemma split_nonempty (sep : N) (s : jsstring) : split sep s ≠ [].
Proof.
  destruct s as [|c s]; simpl; [done|].
  destruct (c =? sep); [done|]. by destruct (split sep s).
Qed.

Lemma split_app (sep : N) (a b : jsstring) :
  split sep (a ++ sep :: b) = split sep a ++ split sep b.
Proof.
  induction a as [|c a IH]; simpl.
  - by rewrite N.eqb_refl.
  - destruct (c =? sep); [by rewrite IH|].
    rewrite IH. pose proof (split_nonempty sep a).
    by destruct (split sep a).
Qed.

(** X8: parsing distributes over lines: the entries of two outputs joined by a
    line feed are the entries of the first followed by those of the second, so
    the output order is the input order and nothing is merged or dropped across
    lines. *)
Theorem parseDiffEntries_app (a b : jsstring) :
  parseDiffEntries (a ++ [LF] ++ b) = parseDiffEntries a ++ parseDiffEntries b.
Proof.
  rewrite !parseDiffEntries_lines. cbn [app].
  rewrite split_app. apply bind_app.
Qed.

Lemma trimStart_idempotent (s : jsstring) : trimStart (trimStart s) = trimStart s.
Proof.
  induction s as [|c s IH]; simpl; [done|].
  destruct (isWhiteSpace c) eqn:E; [done|]. simpl. by rewrite E.
Qed.

Lemma trimStart_snoc (s : jsstring) (c : N) :
  isWhiteSpace c = false → trimStart (s ++ [c]) = trimStart s ++ [c].
Proof.
  intros Hc. induction s as [|d s IH]; simpl; [by rewrite Hc|].
  by destruct (isWhiteSpace d).
Qed.

Lemma trimEnd_cons (c : N) (s : jsstring) :
  isWhiteSpace c = false → trimEnd (c :: s) = c :: trimEnd s.
Proof.
  intros Hc. unfold trimEnd. simpl.
  by rewrite trimStart_snoc, rev_app_distr.
Qed.

Lemma trimEnd_idempotent (s : jsstring) : trimEnd (trimEnd s) = trimEnd s.
Proof. unfold trimEnd. by rewrite rev_involutive, trimStart_idempotent. Qed.

Lemma trimStart_head (s : jsstring) :
  trimStart s = [] ∨ ∃ c s', trimStart s = c :: s' ∧ isWhiteSpace c = false.
Proof.
  induction s as [|c s IH]; simpl; [by left|].
  destruct (isWhiteSpace c) eqn:E; [done|]. right. by exists c, s.
Qed.

Lemma trim_idempotent (s : jsstring) : trim (trim s) = trim s.
Proof.
  unfold trim. destruct (trimStart_head s) as [->|(c & s' & -> & Hc)].
  - reflexivity.
  - rewrite trimEnd_cons by done. cbn [trimStart]. rewrite Hc.
    by rewrite trimEnd_cons, trimEnd_idempotent.
Qed.

Lemma trimStart_elem_of (s : jsstring) (c : N) : c ∈ trimStart s → c ∈ s.
Proof.
  induction s as [|d s IH]; simpl; [done|].
  destruct (isWhiteSpace d); [|done]. intros H. right. by apply IH.
Qed.

Lemma elem_of_rev_iff (s : jsstring) (c : N) : c ∈ rev s ↔ c ∈ s.
Proof. rewrite !list_elem_of_In. symmetry. apply in_rev. Qed.

Lemma trim_elem_of (s : jsstring) (c : N) : c ∈ trim s → c ∈ s.
Proof.
  unfold trim, trimEnd. rewrite elem_of_rev_iff.
  intros H. apply trimStart_elem_of in H. rewrite elem_of_rev_iff in H.
  by apply trimStart_elem_of.
Qed.

Lemma split_parts (sep : N) (s part : jsstring) :
  part ∈ split sep s → (sep ∉ part) ∧ (∀ c, c ∈ part → c ∈ s).
Proof.
  revert part. induction s as [|c s IH]; intros part; simpl.
  - intros ->%list_elem_of_singleton. split; [apply not_elem_of_nil|done].
  - destruct (N.eqb_spec c sep) as [->|Hc].
    + intros [->|Hpart]%elem_of_cons;
        [split; [apply not_elem_of_nil|by intros ? ?%elem_of_nil]|].
      destruct (IH _ Hpart) as [? Hsub]. split; [done|].
      intros d Hd. right. by apply Hsub.
    + pose proof (split_nonempty sep s).
      destruct (split sep s) as [|p ps] eqn:E; [done|].
      intros [->|Hpart]%elem_of_cons.
      * destruct (IH p) as [Hp Hsub]; [by left|]. split.
        -- by intros [?|?]%elem_of_cons.
        -- intros d [->|Hd]%elem_of_cons; [by left|]. right. by apply Hsub.
      * destruct (IH part) as [Hp Hsub]; [by right|]. split; [done|].
        intros d Hd. right. by apply Hsub.
Qed.

Lemma parseLine_fields (line : jsstring) (entry : DiffEntry) :
  entry ∈ parseLine line →
  ∃ p0 p, p0 ∈ split TAB line ∧ p ∈ split TAB line ∧
          status entry = trim p0 ∧ path entry = trim p.
Proof.
  unfold parseLine.
  destruct (split TAB line) as [|p0 [|p1 rest]] eqn:E;
    [by intros []%elem_of_nil..|].
  assert (∀ x, x ∈ [ {| status := trim p0; path := trim p1 |} ] →
            ∃ q0 q, q0 ∈ p0 :: p1 :: rest ∧ q ∈ p0 :: p1 :: rest ∧
                    status x = trim q0 ∧ path x = trim q) as Hone.
  { intros x ->%list_elem_of_singleton. exists p0, p1.
    split; [by left|]. split; [by right; left|done]. }
  destruct (startsWith (trim p0) (lit "R") || startsWith (trim p0) (lit "C"));
    [|apply Hone].
  intros [->|Hin]%elem_of_cons;
    [exists p0, p1; split; [by left|]; split; [by right; left|done]|].
  destruct rest as [|[|c p2] rest']; try by apply elem_of_nil in Hin.
  apply list_elem_of_singleton in Hin as ->.
  exists p0, (c :: p2). split; [by left|]. split; [by do 2 right; left|done].
Qed.

(** X9: every entry the parser returns has a status and a path that are
    already trimmed and that hold no tab and no line feed. *)
Theorem parseDiffEntries_fields_clean (diffOutput : jsstring) (entry : DiffEntry) :
  entry ∈ parseDiffEntries diffOutput →
  trim (status entry) = status entry ∧ trim (path entry) = path entry ∧
  (TAB ∉ status entry) ∧ (LF ∉ status entry) ∧
  (TAB ∉ path entry) ∧ (LF ∉ path entry).
Proof.
  rewrite parseDiffEntries_lines, list_elem_of_bind.
  intros (line & Hentry & Hline).
  apply split_parts in Hline as [Hlf Hline].
  apply parseLine_fields in Hentry as (p0 & p & Hp0 & Hp & -> & ->).
  apply split_parts in Hp0 as [Htab0 Hsub0].
  apply split_parts in Hp as [Htab Hsub].
  rewrite !trim_idempotent. split; [done|]. split; [done|].
  repeat split; intros H%trim_elem_of; auto.
Qed.

Lemma parseDiffEntries_fields_clean_witness :
  trim (lit "README.md") = lit "README.md" ∧ (TAB ∉ lit "README.md").
Proof.
  pose proof (parseDiffEntries_fields_clean
                (lit " M " ++ [TAB] ++ lit " README.md ")
                {| status := lit "M"; path := lit "README.md" |}) as H.
  cbn [status path] in H.
  destruct H as (_ & Htrim & _ & _ & Htab & _).
  - replace (parseDiffEntries (lit " M " ++ [TAB] ++ lit " README.md "))
      with [ {| status := lit "M"; path := lit "README.md" |} ]
      by (vm_compute; reflexivity).
    by left.
  - by split.
Defined.

(** X10: an output with no tab in it yields no entry: blank lines and lines of
    a single field are skipped. *)
Theorem parseDiffEntries_without_tab (diffOutput : jsstring) :
  TAB ∉ diffOutput → parseDiffEntries diffOutput = [].
Proof.
  intros Htab. rewrite parseDiffEntries_lines.
  assert (∀ line, line ∈ split LF diffOutput → parseLine line = []) as Hlines.
  { intros line [_ Hsub]%split_parts. unfold parseLine.
    rewrite split_without_separator; [done|]. intros H. by apply Htab, Hsub. }
  induction (split LF diffOutput) as [|l ls IH]; [done|].
  cbn. rewrite (Hlines l) by by left. apply IH.
  intros line Hin. apply Hlines. by right.
Qed.

Lemma parseDiffEntries_without_tab_witness :
  parseDiffEntries (lit "M README.md" ++ [LF] ++ [LF] ++ lit "deleted") = [].
Proof.
  apply parseDiffEntries_without_tab.
  apply (bool_decide_unpack _). vm_compute. exact I.
Defined.

End ParserFacts.

Module CliFacts.
Import Scoreboard.
Import ScoreboardSpec.
Import ScoreboardMoreSpec.
Import ScoreboardFacts.
Import ScoreboardCli.

(** ** The command line of the scoreboard script *)

Lemma parseCliOptionsFrom_invariant
    (P : CliOptions → Prop) (n : nat) (args : list jsstring) (options result : CliOptions) :
  (∀ o, P o → P {| summary := true; reportFile := reportFile o;
                   reportFormat := reportFormat o |}) →
  (∀ o value, P o → value ∈ args → value ≠ [] → startsWith value (lit "--") = false →
              P {| summary := summary o; reportFile := Some value;
                   reportFormat := reportFormat o |}) →
  (∀ o value, P o → value = lit "json" ∨ value = lit "markdown" →
              P {| summary := summary o; reportFile := reportFile o;
                   reportFormat := value |}) →
  (length args ≤ n)%nat →
  P options →
  parseCliOptionsFrom args options = Normal result →
  P result.
Proof.
  intros Hsummary Hfile Hformat. revert args options Hfile.
  induction n as [|n IH]; intros args options Hfile Hlen Hoptions.
  { destruct args; [|simpl in Hlen; lia]. simpl. by intros [= <-]. }
  destruct args as [|arg rest]; [simpl; by intros [= <-]|].
  cbn [parseCliOptionsFrom]. simpl in Hlen.
  case_bool_decide as Hs.
  { apply IH; [|lia|by apply Hsummary].
    intros o value ? ?. apply Hfile; [done|by right]. }
  case_bool_decide as Hf.
  { destruct rest as [|value rest']; [done|]. simpl in Hlen.
    destruct (bool_decide (value = []) || startsWith value (lit "--")) eqn:Hbad; [done|].
    apply orb_false_iff in Hbad as [Hne%bool_decide_eq_false Hdash].
    apply IH; [|lia|].
    - intros o v ? ?. apply Hfile; [done|by do 2 right].
    - apply Hfile; [done|by right; left|done|done]. }
  case_bool_decide as Hr.
  { destruct rest as [|value rest']; [done|]. simpl in Hlen.
    destruct (negb (bool_decide (value = lit "json")) &&
              negb (bool_decide (value = lit "markdown"))) eqn:Hbad; [done|].
    apply IH; [|lia|].
    - intros o v ? ?. apply Hfile; [done|by do 2 right].
    - apply Hformat; [done|].
      apply andb_false_iff in Hbad as [H|H]; apply negb_false_iff in H;
        apply bool_decide_eq_true in H; auto. }
  apply IH; [|lia|done].
  intros o value ? ?. apply Hfile; [done|by right].
Qed.

(** X11: options that parse are well formed: the report format is "json" or
    "markdown", and a report file, when one is set, is one of the arguments,
    is not empty and does not begin with two dashes. *)
Theorem parseCliOptions_result_well_formed
    (args : list jsstring) (options : CliOptions) :
  parseCliOptions args = Normal options →
  (reportFormat options = lit "json" ∨ reportFormat options = lit "markdown") ∧
  ∀ file, reportFile options = Some file →
          file ∈ args ∧ file ≠ [] ∧ startsWith file (lit "--") = false.
Proof.
  unfold parseCliOptions.
  apply (parseCliOptionsFrom_invariant
           (λ o, (reportFormat o = lit "json" ∨ reportFormat o = lit "markdown") ∧
                 ∀ file, reportFile o = Some file →
                         file ∈ args ∧ file ≠ [] ∧ startsWith file (lit "--") = false)
           (length args)); [..|done|].
  - by intros o [? ?].
  - intros o value [? _] ? ? ?. split; [done|]. by intros file [= <-].
  - intros o value [_ ?] ?. by split.
  - split; [by right|]. by intros file [=].
Qed.

Lemma parseCliOptions_result_well_formed_witness :
  lit "json" = lit "json" ∨ lit "json" = lit "markdown".
Proof.
  exact (proj1 (parseCliOptions_result_well_formed
                  [ lit "--report-file"; lit "tmp/parity-report.json";
                    lit "--report-format"; lit "json" ]
                  {| summary := false; reportFile := Some (lit "tmp/parity-report.json");
                     reportFormat := lit "json" |} eq_refl)).
Defined.

Lemma parseCliOptionsFrom_untouched
    (n : nat) (args : list jsstring) (options result : CliOptions) :
  (length args ≤ n)%nat →
  parseCliOptionsFrom args options = Normal result →
  (lit "--summary" ∉ args → summary result = summary options) ∧
  (lit "--report-file" ∉ args → reportFile result = reportFile options) ∧
  (lit "--report-format" ∉ args → reportFormat result = reportFormat options).
Proof.
  revert args options. induction n as [|n IH]; intros args options Hlen.
  { destruct args; [|simpl in Hlen; lia]. simpl. by intros [= <-]. }
  destruct args as [|arg rest]; [simpl; by intros [= <-]|].
  cbn [parseCliOptionsFrom]. simpl in Hlen.
  case_bool_decide as Hs.
  { intros (H1 & H2 & H3)%IH; [|lia]. subst arg.
    split; [by intros []%not_elem_of_cons|].
    split; intros []%not_elem_of_cons; auto. }
  case_bool_decide as Hf.
  { destruct rest as [|value rest']; [done|]. simpl in Hlen.
    destruct (bool_decide (value = []) || startsWith value (lit "--")); [done|].
    intros (H1 & H2 & H3)%IH; [|lia]. subst arg.
    split; [|split].
    - intros (_ & []%not_elem_of_cons)%not_elem_of_cons. auto.
    - by intros []%not_elem_of_cons.
    - intros (_ & []%not_elem_of_cons)%not_elem_of_cons. auto. }
  case_bool_decide as Hr.
  { destruct rest as [|value rest']; [done|]. simpl in Hlen.
    destruct (negb _ && negb _); [done|].
    intros (H1 & H2 & H3)%IH; [|lia]. subst arg.
    split; [|split].
    - intros (_ & []%not_elem_of_cons)%not_elem_of_cons. auto.
    - intros (_ & []%not_elem_of_cons)%not_elem_of_cons. auto.
    - by intros []%not_elem_of_cons. }
  intros (H1 & H2 & H3)%IH; [|lia].
  repeat split; intros []%not_elem_of_cons; auto.
Qed.

(** X12: an option changes only through its own flag: without "--summary" among
    the arguments the summary mode stays off, without "--report-file" no report
    file is set, and without "--report-format" the format stays "markdown". *)
Theorem parseCliOptions_defaults (args : list jsstring) (options : CliOptions) :
  parseCliOptions args = Normal options →
  (lit "--summary" ∉ args → summary options = false) ∧
  (lit "--report-file" ∉ args → reportFile options = None) ∧
  (lit "--report-format" ∉ args → reportFormat options = lit "markdown").
Proof.
  intros H. by apply (parseCliOptionsFrom_untouched (length args)) in H.
Qed.

Lemma parseCliOptions_defaults_witness :
  parseCliOptions [ lit "--verbose"; lit "--report-format"; lit "json" ] =
    Normal {| summary := false; reportFile := None; reportFormat := lit "json" |} ∧
  reportFile {| summary := false; reportFile := None; reportFormat := lit "json" |} = None.
Proof.
  split; [reflexivity|].
  refine (proj1 (proj2 (parseCliOptions_defaults
                  [ lit "--verbose"; lit "--report-format"; lit "json" ]
                  {| summary := false; reportFile := None; reportFormat := lit "json" |}
                  eq_refl)) _).
  apply (bool_decide_unpack _). vm_compute. exact I.
Defined.

Lemma parseCliOptionsFrom_dangling_flag
    (flag : jsstring) (n : nat) (args : list jsstring) (options : CliOptions) :
  flag = lit "--report-file" ∨ flag = lit "--report-format" →
  (length args ≤ n)%nat →
  ∃ message, parseCliOptionsFrom (args ++ [flag]) options = Throw message.
Proof.
  intros Hflag. revert args options. induction n as [|n IH]; intros args options Hlen.
  { destruct args; [|simpl in Hlen; lia]. simpl.
    destruct Hflag as [-> | ->]; vm_compute; by eexists. }
  destruct args as [|arg rest].
  { destruct Hflag as [-> | ->]; vm_compute; by eexists. }
  cbn [app parseCliOptionsFrom]. simpl in Hlen.
  case_bool_decide as Hs; [apply IH; lia|].
  case_bool_decide as Hf.
  { destruct rest as [|value rest']; cbn [app].
    - destruct Hflag as [-> | ->]; vm_compute; by eexists.
    - destruct (bool_decide (value = []) || startsWith value (lit "--")); [by eexists|].
      apply IH. simpl in Hlen. lia. }
  case_bool_decide as Hr.
  { destruct rest as [|value rest']; cbn [app].
    - destruct Hflag as [-> | ->]; vm_compute; by eexists.
    - destruct (negb _ && negb _); [by eexists|].
      apply IH. simpl in Hlen. lia. }
  apply IH. lia.
Qed.

(** X13: an argument list that ends in "--report-file" or in "--report-format"
    is always rejected, whatever precedes the flag: the flag either lacks its
    value or is itself taken as the value of the flag before it, which refuses
    it. *)
Theorem parseCliOptions_rejects_trailing_flag (args : list jsstring) :
  (∃ message, parseCliOptions (args ++ [lit "--report-file"]) = Throw message) ∧
  (∃ message, parseCliOptions (args ++ [lit "--report-format"]) = Throw message).
Proof.
  split; apply (parseCliOptionsFrom_dangling_flag _ (length args)); auto.
Qed.

(** ** The markdown report *)

(** X14: the markdown report opens with its title, contains the summary, and has
    the row of every capability of the scoreboard. *)
Theorem renderParityReportMarkdown_contents
    (localeCompare : jsstring → jsstring → Z) (Number_toString : Z → jsstring)
    (scoreboard : Scoreboard) :
  let report := renderParityReportMarkdown localeCompare Number_toString scoreboard in
  startsWith report (lit "# GitHub Mode Parity Report") = true ∧
  str_includes report (renderSummaryMarkdown scoreboard) = true ∧
  str_includes report (lit "Generated at: 1970-01-01T00:00:00.000Z") = true ∧
  ∀ capability, capability ∈ capabilities scoreboard →
                str_includes report (reportRow capability) = true.
Proof.
  cbv zeta. unfold renderParityReportMarkdown.
  cbn [generatedAt scoreboardVersion Scoreboard.summary reportCapabilities
       buildParityReport].
  split; [|split; [|split]].
  - cbn [app join]. apply (startsWith_app (lit "# GitHub Mode Parity Report")).
  - match goal with |- str_includes (join ?sep ?parts) ?x = true =>
      destruct (join_includes sep parts x) as (pre & post & ->)
    end.
    { rewrite elem_of_app. left. rewrite !elem_of_cons. auto 10. }
    apply str_includes_infix.
  - match goal with |- str_includes (join ?sep ?parts) ?x = true =>
      destruct (join_includes sep parts x) as (pre & post & ->)
    end.
    { rewrite elem_of_app. left. rewrite !elem_of_cons. auto 10. }
    apply str_includes_infix.
  - intros c Hc.
    match goal with |- str_includes (join ?sep ?parts) ?x = true =>
      destruct (join_includes sep parts x) as (pre & post & ->)
    end.
    { rewrite elem_of_app. right. apply list_elem_of_fmap. exists c.
      split; [done|]. by rewrite toSorted_Permutation. }
    apply str_includes_infix.
Qed.

(** ** The diff against the base reference *)

(** X15: the guard fails open on git: when the diff command throws, or prints
    nothing but white space, there are no entries and the spec-tracking guard
    passes. *)
Theorem getDiffEntries_fails_open (execSync : jsstring → Completion jsstring) :
  (∀ output,
     execSync (lit "git diff --name-status " ++ determineBaseRef execSync ++
               lit "...HEAD") = Normal output →
     trim output = []) →
  getDiffEntries execSync = [] ∧
  enforceSpecToImplementationTracking (getDiffEntries execSync) = Normal ().
Proof.
  intros Hdiff.
  assert (getDiffEntries execSync = []) as ->; [|done].
  unfold getDiffEntries.
  destruct (execSync _) as [output|] eqn:E; [|done].
  by rewrite (Hdiff output eq_refl).
Qed.

Lemma getDiffEntries_fails_open_witness :
  getDiffEntries (λ _, Throw (lit "fatal: not a git repository")) = [].
Proof.
  refine (proj1 (getDiffEntries_fails_open
                   (λ _, Throw (lit "fatal: not a git repository")) _)).
  intros output H. discriminate H.
Defined.

End CliFacts.

(** * Further properties of enforce-policy-gated-adapter.ts *)

Lemma Normal_eq {A} (a b : A) : Normal a = Normal b → a = b.
Proof. congruence. Qed.

Module GateFacts.
Import PolicyGate.
Import PolicyGateSpec.
Import PolicyGateMoreSpec.
Import PolicyGateFacts.

(** ** When the gate passes *)

Lemma includesString_true (items : list Json) (action : jsstring) :
  includesString items action = true ↔ JString action ∈ items.
Proof.
  unfold includesString. rewrite existsb_exists. split.
  - intros (x & Hx%list_elem_of_In & Heq).
    destruct x as [| | |s| |]; simpl in Heq; try done.
    by apply bool_decide_eq_true in Heq as ->.
  - intros Hin. exists (JString action). split; [by apply list_elem_of_In|].
    simpl. by apply bool_decide_eq_true.
Qed.

Lemma strictEqualsString_true (value : option Json) (s : jsstring) :
  strictEqualsString value s = true ↔ value = Some (JString s).
Proof.
  destruct value as [[| | |s'| |]|]; simpl; try (split; discriminate).
  rewrite bool_decide_eq_true. split; [by intros ->|by intros [= ->]].
Qed.

Lemma passConditions_pass (h : Host) (root adapterName action : jsstring) :
  passConditions h root adapterName action →
  ∃ d, enforcePolicyGatedAdapter h root adapterName action = Normal d ∧
       resultOf d = Some PASS ∧
       evidenceOf d = Some (COMMAND_POLICY_PATH ++ lit ", " ++ ADAPTER_CONTRACTS_PATH).
Proof.
  intros (policy & contracts & adapters & adapter & c & cs & allowed &
          Hpolicy & Hmode & Hcontracts & Hadapters & Hfind & Hconstraints &
          Hallowed & Hin).
  unfold enforcePolicyGatedAdapter. rewrite Hpolicy.
  destruct (getProp_of_non_null _ _ (lit "policyVersion") _ Hmode) as [pv ->].
  rewrite Hmode. cbn [mbind Completion_bind].
  rewrite (proj2 (strictEqualsString_true _ _) eq_refl). cbn [negb].
  rewrite Hcontracts, Hadapters. cbn [mbind Completion_bind].
  rewrite Hfind, Hconstraints. cbn [mbind Completion_bind].
  rewrite Hallowed. cbn [mbind Completion_bind].
  rewrite (proj2 (includesString_true _ _) Hin). cbn [negb].
  eexists. split; [reflexivity|].
  split; [apply (resultOf_decision h)|apply (decision_fields h)].
Qed.

Lemma pass_passConditions (h : Host) (root adapterName action : jsstring)
    (d : PolicyDecision) :
  enforcePolicyGatedAdapter h root adapterName action = Normal d →
  resultOf d = Some PASS →
  passConditions h root adapterName action.
Proof.
  unfold enforcePolicyGatedAdapter, passConditions.
  assert (∀ reason evidence pv em,
            resultOf (decision (base h adapterName action) FAIL reason evidence pv em)
            ≠ Some PASS) as Hfail.
  { intros. rewrite resultOf_decision. by vm_compute. }
  destruct (readJson h COMMAND_POLICY_PATH root) as [policy|?] eqn:Hpolicy.
  2:{ intros <-%Normal_eq Hres. by apply Hfail in Hres. }
  destruct (getProp policy (lit "policyVersion")) as [pv|] eqn:Hpv; [|done].
  destruct (getProp policy (lit "enforcementMode")) as [em|] eqn:Hem; [|done].
  cbn [mbind Completion_bind].
  destruct (strictEqualsString em (lit "enforce")) eqn:Hmode; cbn [negb].
  2:{ intros <-%Normal_eq Hres. by apply Hfail in Hres. }
  apply strictEqualsString_true in Hmode as ->.
  destruct (readJson h ADAPTER_CONTRACTS_PATH root) as [contracts|?] eqn:Hcontracts.
  2:{ intros <-%Normal_eq Hres. by apply Hfail in Hres. }
  destruct (getProp contracts (lit "adapters")) as [adaptersValue|] eqn:Hadapters;
    [|done].
  cbn [mbind Completion_bind].
  assert (∀ x : Completion PolicyDecision,
            (∃ reason evidence pv' em',
               x = Normal (decision (base h adapterName action) FAIL
                             reason evidence pv' em')) →
            x = Normal d → resultOf d = Some PASS → False) as Hno.
  { intros x (? & ? & ? & ? & ->) <-%Normal_eq Hres. by apply Hfail in Hres. }
  destruct adaptersValue as [[| | | |adapters|]|];
    try (intros H1 H2; exfalso; revert H1 H2; apply Hno; by do 4 eexists).
  destruct (find _ adapters) as [adapter|] eqn:Hfind;
    [|intros H1 H2; exfalso; revert H1 H2; apply Hno; by do 4 eexists].
  destruct (getProp adapter (lit "constraints")) as [constraintsValue|] eqn:Hcons;
    [|done].
  cbn [mbind Completion_bind].
  destruct constraintsValue as [[| | | |[|c cs]|]|];
    try (intros H1 H2; exfalso; revert H1 H2; apply Hno; by do 4 eexists).
  destruct (getProp policy (lit "allowedActions")) as [allowedValue|] eqn:Hallowed;
    [|done].
  cbn [mbind Completion_bind].
  destruct allowedValue as [[| | | |allowed|]|];
    try (intros H1 H2; exfalso; revert H1 H2; apply Hno; by do 4 eexists).
  destruct (includesString allowed action) eqn:Hincl; cbn [negb].
  2:{ destruct (joinJson (lit ", ") allowed); cbn [mbind Completion_bind]; [|done].
      intros H1 H2; exfalso; revert H1 H2; apply Hno; by do 4 eexists. }
  intros _ _. exists policy, contracts, adapters, adapter, c, cs, allowed.
  apply includesString_true in Hincl. done.
Qed.

(** X16: the gate returns PASS exactly when both documents are read, the mode
    is the string "enforce", [adapters] is an array whose first element named
    [adapterName] has a non-empty [constraints] array, and [allowedActions] is
    an array holding the action as a string; every other outcome is a FAIL
    record or an exception. *)
Theorem enforcePolicyGatedAdapter_pass_iff
    (h : Host) (root adapterName action : jsstring) :
  (∃ d, enforcePolicyGatedAdapter h root adapterName action = Normal d ∧
        resultOf d = Some PASS)
  ↔ passConditions h root adapterName action.
Proof.
  split.
  - intros (d & Hd & Hres). by eapply pass_passConditions.
  - intros (d & Hd & Hres & _)%passConditions_pass. by exists d.
Qed.

(** ** Denials *)

Lemma joinJson_strings (sep : jsstring) (names : list jsstring) :
  joinJson sep (JString <$> names) = Normal (join sep names).
Proof.
  induction names as [|name names IH]; [done|].
  cbn [fmap list_fmap joinJson toStringJson mbind Completion_bind].
  destruct names as [|name' names]; [done|].
  change (JString <$> name' :: names) with (JString name' :: (JString <$> names)) in *.
  cbn [fmap list_fmap] in IH |- *.
  by rewrite IH.
Qed.

(** X17: with the policy in mode "enforce", the adapter found with constraints
    and [allowedActions] an array of strings that does not hold the action, the
    gate returns FAIL on the evidence of the command policy, and the reason
    says "not in allowedActions", quotes the action and lists every allowed
    action. *)
Theorem enforcePolicyGatedAdapter_action_denied
    (h : Host) (root adapterName action : jsstring)
    (commandPolicy : Json) (names : list jsstring) :
  reachesActionCheck h root adapterName commandPolicy →
  getProp commandPolicy (lit "allowedActions") =
    Normal (Some (JArray (JString <$> names))) →
  action ∉ names →
  ∃ d reason,
    enforcePolicyGatedAdapter h root adapterName action = Normal d ∧
    resultOf d = Some FAIL ∧
    evidenceOf d = Some COMMAND_POLICY_PATH ∧
    reasonOf d = Some reason ∧
    str_includes reason (lit "not in allowedActions") = true ∧
    str_includes reason ([QUOTE] ++ action ++ [QUOTE]) = true ∧
    ∀ name, name ∈ names → str_includes reason name = true.
Proof.
  intros (contracts & adapters & adapter & c & cs &
          Hpolicy & Hmode & Hcontracts & Hadapters & Hfind & Hconstraints)
         Hallowed Hnotin.
  unfold enforcePolicyGatedAdapter. rewrite Hpolicy.
  destruct (getProp_of_non_null _ _ (lit "policyVersion") _ Hmode) as [pv ->].
  rewrite Hmode. cbn [mbind Completion_bind].
  rewrite (proj2 (strictEqualsString_true _ _) eq_refl). cbn [negb].
  rewrite Hcontracts, Hadapters. cbn [mbind Completion_bind].
  rewrite Hfind, Hconstraints. cbn [mbind Completion_bind].
  rewrite Hallowed. cbn [mbind Completion_bind].
  assert (includesString (JString <$> names) action = false) as ->.
  { apply not_true_is_false. rewrite includesString_true.
    intros (name & [= ->] & Hname)%list_elem_of_fmap. done. }
  cbn [negb]. rewrite joinJson_strings. cbn [mbind Completion_bind].
  eexists _, _. split; [reflexivity|].
  split; [apply (resultOf_decision h)|].
  split; [apply (decision_fields h)|].
  split; [apply (reasonOf_decision h)|].
  split; [find_needle|]. split.
  - apply (str_includes_quoted (lit "action")).
  - intros name Hname.
    destruct (join_includes (lit ", ") names name Hname) as (pre & post & ->).
    do 5 apply str_includes_app_r.
    apply str_includes_app_l.
    apply (str_includes_infix pre name post).
Qed.

Lemma enforcePolicyGatedAdapter_action_denied_witness :
  ∃ d reason,
    enforcePolicyGatedAdapter (validHost (lit "2026-02-20T00:00:00.000Z"))
      repo (lit "repo-write") (lit "delete") = Normal d ∧
    resultOf d = Some FAIL ∧
    evidenceOf d = Some COMMAND_POLICY_PATH ∧
    reasonOf d = Some reason ∧
    str_includes reason (lit "not in allowedActions") = true ∧
    str_includes reason ([QUOTE] ++ lit "delete" ++ [QUOTE]) = true ∧
    ∀ name, name ∈ [ lit "plan"; lit "validate"; lit "open-pr" ] →
            str_includes reason name = true.
Proof.
  refine (enforcePolicyGatedAdapter_action_denied
            (validHost (lit "2026-02-20T00:00:00.000Z")) repo
            (lit "repo-write") (lit "delete") policy_value
            [ lit "plan"; lit "validate"; lit "open-pr" ] _ _ _).
  - exists contracts_value. repeat eexists; vm_compute; reflexivity.
  - vm_compute. reflexivity.
  - apply (bool_decide_unpack _). vm_compute. exact I.
Defined.

(** X18: an adapter that is found but whose [constraints] is missing, is no
    array or is empty is denied with a reason saying "no constraints", on the
    evidence of the adapter contracts, whatever the action and whatever
    [allowedActions] holds. *)
Theorem enforcePolicyGatedAdapter_no_constraints
    (h : Host) (root adapterName action : jsstring)
    (commandPolicy adapterContracts adapter : Json) (adapters : list Json)
    (constraints : option Json) :
  readJson h COMMAND_POLICY_PATH root = Normal commandPolicy →
  getProp commandPolicy (lit "enforcementMode") =
    Normal (Some (JString (lit "enforce"))) →
  readJson h ADAPTER_CONTRACTS_PATH root = Normal adapterContracts →
  getProp adapterContracts (lit "adapters") = Normal (Some (JArray adapters)) →
  find (λ a, isNamed adapterName a) adapters = Some adapter →
  getProp adapter (lit "constraints") = Normal constraints →
  nonEmptyArray constraints = false →
  ∃ d reason,
    enforcePolicyGatedAdapter h root adapterName action = Normal d ∧
    resultOf d = Some FAIL ∧
    evidenceOf d = Some ADAPTER_CONTRACTS_PATH ∧
    reasonOf d = Some reason ∧
    str_includes reason (lit "no constraints") = true.
Proof.
  intros Hpolicy Hmode Hcontracts Hadapters Hfind Hconstraints Hempty.
  unfold enforcePolicyGatedAdapter. rewrite Hpolicy.
  destruct (getProp_of_non_null _ _ (lit "policyVersion") _ Hmode) as [pv ->].
  rewrite Hmode. cbn [mbind Completion_bind].
  rewrite (proj2 (strictEqualsString_true _ _) eq_refl). cbn [negb].
  rewrite Hcontracts, Hadapters. cbn [mbind Completion_bind].
  rewrite Hfind, Hconstraints. cbn [mbind Completion_bind].
  destruct constraints as [[| | | |[|c cs]|]|]; try discriminate Hempty;
    (eexists _, _; split; [reflexivity|];
     split; [apply (resultOf_decision h)|];
     split; [apply (decision_fields h)|];
     split; [apply (reasonOf_decision h)|find_needle]).
Qed.

Lemma enforcePolicyGatedAdapter_no_constraints_witness :
  ∃ d reason,
    enforcePolicyGatedAdapter noConstraintsHost repo (lit "repo-write") (lit "open-pr")
      = Normal d ∧
    resultOf d = Some FAIL ∧
    evidenceOf d = Some ADAPTER_CONTRACTS_PATH ∧
    reasonOf d = Some reason ∧
    str_includes reason (lit "no constraints") = true.
Proof.
  refine (enforcePolicyGatedAdapter_no_constraints noConstraintsHost repo
            (lit "repo-write") (lit "open-pr") policy_value no_constraints_value
            (JObject [ (lit "name", JString (lit "repo-write"));
                       (lit "constraints", JArray []) ])
            _ (Some (JArray [])) _ _ _ _ _ _ _).
  - vm_compute. reflexivity.
  - vm_compute. reflexivity.
  - vm_compute. reflexivity.
  - vm_compute. reflexivity.
  - vm_compute. reflexivity.
  - vm_compute. reflexivity.
  - reflexivity.
Defined.

(** ** Unreadable documents *)

(** X19: when command-policy.json cannot be read or parsed, the gate returns
    FAIL with the error text in the reason, the policy file as evidence, and
    "unknown" for both the policy version and the enforcement mode. *)
Theorem enforcePolicyGatedAdapter_policy_unreadable
    (h : Host) (root adapterName action error : jsstring) :
  readJson h COMMAND_POLICY_PATH root = Throw error →
  ∃ d,
    enforcePolicyGatedAdapter h root adapterName action = Normal d ∧
    resultOf d = Some FAIL ∧
    reasonOf d = Some (lit "failed to read command-policy.json: " ++ error) ∧
    evidenceOf d = Some COMMAND_POLICY_PATH ∧
    policyVersionOf d = Some (lit "unknown") ∧
    enforcementModeOf d = Some (lit "unknown").
Proof.
  intros Hpolicy. unfold enforcePolicyGatedAdapter. rewrite Hpolicy.
  eexists. split; [reflexivity|].
  split; [apply (resultOf_decision h)|].
  split; [apply (reasonOf_decision h)|].
  repeat split; apply (decision_fields h).
Qed.

Lemma enforcePolicyGatedAdapter_policy_unreadable_witness :
  ∃ d,
    enforcePolicyGatedAdapter missingPolicyHost repo (lit "repo-write") (lit "open-pr")
      = Normal d ∧
    resultOf d = Some FAIL ∧
    reasonOf d =
      Some (lit "failed to read command-policy.json: " ++
            lit "ENOENT: no such file or directory, open '/repo/.GITHUB-MODE/runtime/command-policy.json'") ∧
    evidenceOf d = Some COMMAND_POLICY_PATH ∧
    policyVersionOf d = Some (lit "unknown") ∧
    enforcementModeOf d = Some (lit "unknown").
Proof.
  refine (enforcePolicyGatedAdapter_policy_unreadable missingPolicyHost repo
            (lit "repo-write") (lit "open-pr") _ _).
  vm_compute. reflexivity.
Defined.

(** X20: when the policy is in mode "enforce" and adapter-contracts.json cannot
    be read or parsed, the gate returns FAIL with the error text in the
    reason and the contracts file as evidence, and still reports the policy
    version read from the command policy. *)
Theorem enforcePolicyGatedAdapter_contracts_unreadable
    (h : Host) (root adapterName action error : jsstring) (commandPolicy : Json) :
  readJson h COMMAND_POLICY_PATH root = Normal commandPolicy →
  getProp commandPolicy (lit "enforcementMode") =
    Normal (Some (JString (lit "enforce"))) →
  readJson h ADAPTER_CONTRACTS_PATH root = Throw error →
  ∃ d,
    enforcePolicyGatedAdapter h root adapterName action = Normal d ∧
    resultOf d = Some FAIL ∧
    reasonOf d = Some (lit "failed to read adapter-contracts.json: " ++ error) ∧
    evidenceOf d = Some ADAPTER_CONTRACTS_PATH ∧
    policyVersionOf d = Some (fieldText commandPolicy (lit "policyVersion")) ∧
    enforcementModeOf d = Some (lit "enforce").
Proof.
  intros Hpolicy Hmode Hcontracts.
  unfold enforcePolicyGatedAdapter, fieldText. rewrite Hpolicy.
  destruct (getProp_of_non_null _ _ (lit "policyVersion") _ Hmode) as [pv ->].
  rewrite Hmode. cbn [mbind Completion_bind].
  rewrite (proj2 (strictEqualsString_true _ _) eq_refl). cbn [negb].
  rewrite Hcontracts.
  eexists. split; [reflexivity|].
  split; [apply (resultOf_decision h)|].
  split; [apply (reasonOf_decision h)|].
  repeat split; apply (decision_fields h).
Qed.

Lemma enforcePolicyGatedAdapter_contracts_unreadable_witness :
  ∃ d,
    enforcePolicyGatedAdapter missingContractsHost repo (lit "repo-write") (lit "open-pr")
      = Normal d ∧
    resultOf d = Some FAIL ∧
    reasonOf d =
      Some (lit "failed to read adapter-contracts.json: " ++
            lit "ENOENT: no such file or directory, open '/repo/.GITHUB-MODE/runtime/adapter-contracts.json'") ∧
    evidenceOf d = Some ADAPTER_CONTRACTS_PATH ∧
    policyVersionOf d = Some (fieldText policy_value (lit "policyVersion")) ∧
    enforcementModeOf d = Some (lit "enforce").
Proof.
  refine (enforcePolicyGatedAdapter_contracts_unreadable missingContractsHost repo
            (lit "repo-write") (lit "open-pr") _ policy_value _ _ _).
  - vm_compute. reflexivity.
  - vm_compute. reflexivity.
  - vm_compute. reflexivity.
Defined.

(** ** What a call does not look at *)

(** X21: unless the command policy is read and its mode is the string
    "enforce", the outcome does not depend on adapter-contracts.json: two
    hosts with the same command policy and clock reading give the same
    outcome. *)
Theorem enforcePolicyGatedAdapter_short_circuit
    (h1 h2 : Host) (root adapterName action : jsstring) :
  readJson h1 COMMAND_POLICY_PATH root = readJson h2 COMMAND_POLICY_PATH root →
  now_toISOString h1 = now_toISOString h2 →
  (∀ commandPolicy,
     readJson h1 COMMAND_POLICY_PATH root = Normal commandPolicy →
     getProp commandPolicy (lit "enforcementMode") ≠
       Normal (Some (JString (lit "enforce")))) →
  enforcePolicyGatedAdapter h1 root adapterName action =
  enforcePolicyGatedAdapter h2 root adapterName action.
Proof.
  intros Hpolicy Hnow Hmode. unfold enforcePolicyGatedAdapter.
  rewrite <- Hpolicy, <- Hnow.
  destruct (readJson h1 COMMAND_POLICY_PATH root) as [policy|?]; [|done].
  specialize (Hmode policy eq_refl).
  destruct (getProp policy (lit "policyVersion")) as [pv|]; [|done].
  destruct (getProp policy (lit "enforcementMode")) as [em|]; [|done].
  cbn [mbind Completion_bind].
  destruct (strictEqualsString em (lit "enforce")) eqn:E; [|done].
  apply strictEqualsString_true in E as ->. done.
Qed.

Lemma enforcePolicyGatedAdapter_short_circuit_witness :
  enforcePolicyGatedAdapter auditModeHost repo (lit "repo-write") (lit "open-pr") =
  enforcePolicyGatedAdapter auditOnlyHost repo (lit "repo-write") (lit "open-pr").
Proof.
  refine (enforcePolicyGatedAdapter_short_circuit auditModeHost auditOnlyHost repo
            (lit "repo-write") (lit "open-pr") _ _ _).
  - vm_compute. reflexivity.
  - reflexivity.
  - intros commandPolicy Hpolicy.
    assert (commandPolicy = audit_mode_value) as ->.
    { vm_compute in Hpolicy. apply Normal_eq in Hpolicy. subst commandPolicy.
      vm_compute. reflexivity. }
    vm_compute. discriminate.
Defined.

End GateFacts.

Module ProvenanceFacts.
Import PolicyGate.
Import PolicyGateSpec.
Import PolicyGateMoreSpec.
Import PolicyGateFacts.

(** ** Evidence and echoed policy fields *)

(** X22: in every decision the gate returns, [policyVersion] and
    [enforcementMode] are the texts of those fields of the command policy
    ("unknown" for a field that is no string or a policy that was not read),
    and the evidence is one of the two contract files on FAIL and both, joined
    by a comma, on PASS. *)
Theorem enforcePolicyGatedAdapter_provenance
    (h : Host) (root adapterName action : jsstring) (d : PolicyDecision) :
  enforcePolicyGatedAdapter h root adapterName action = Normal d →
  policyVersionOf d = Some (reportedField h root (lit "policyVersion")) ∧
  enforcementModeOf d = Some (reportedField h root (lit "enforcementMode")) ∧
  ((resultOf d = Some PASS ∧
    evidenceOf d = Some (COMMAND_POLICY_PATH ++ lit ", " ++ ADAPTER_CONTRACTS_PATH)) ∨
   (resultOf d = Some FAIL ∧
    (evidenceOf d = Some COMMAND_POLICY_PATH ∨
     evidenceOf d = Some ADAPTER_CONTRACTS_PATH))).
Proof.
  unfold enforcePolicyGatedAdapter, reportedField, fieldText.
  destruct (readJson h COMMAND_POLICY_PATH root) as [policy|?].
  2:{ intros <-%Normal_eq.
      match goal with |- context [decision _ ?r ?re ?ev ?pv ?em] =>
        destruct (decision_fields h adapterName action r re ev pv em)
          as (_ & _ & _ & _ & _ & Hr & _ & Hev & Hpv & Hem)
      end.
      unfold policyVersionOf, enforcementModeOf, evidenceOf, resultOf.
      unfold base in Hr, Hev, Hpv, Hem.
      rewrite Hr, Hev, Hpv, Hem.
      (split; [done|split; [done|]];
       first [ by left | by right; split; [|left] | by right; split; [|right] ]). }
  destruct (getProp policy (lit "policyVersion")) as [pv|]; [|done].
  destruct (getProp policy (lit "enforcementMode")) as [em|]; [|done].
  unfold mbind, Completion_bind.
  repeat match goal with
    | |- match ?x with _ => _ end = _ → _ => destruct x
    end;
    try discriminate;
    intros <-%Normal_eq;
    match goal with |- context [decision _ ?r ?re ?ev ?pv ?em] =>
      destruct (decision_fields h adapterName action r re ev pv em)
        as (_ & _ & _ & _ & _ & Hr & _ & Hev & Hpv & Hem)
    end;
    unfold policyVersionOf, enforcementModeOf, evidenceOf, resultOf;
    unfold base in Hr, Hev, Hpv, Hem;
    rewrite Hr, Hev, Hpv, Hem;
    (split; [done|split; [done|]];
       first [ by left | by right; split; [|left] | by right; split; [|right] ]).
Qed.

Lemma enforcePolicyGatedAdapter_provenance_witness :
  policyVersionOf
    [ (lit "gate", lit "policy-gated-adapter"); (lit "adapter", lit "repo-write");
      (lit "action", lit "open-pr"); (lit "timestamp", lit "2026-02-20T00:00:00.000Z");
      (lit "result", lit "FAIL");
      (lit "reason",
       lit "command-policy enforcementMode is " ++ [QUOTE] ++ lit "audit" ++ [QUOTE] ++
       lit ", expected " ++ [QUOTE] ++ lit "enforce" ++ [QUOTE] ++ lit " " ++
       [EM_DASH] ++ lit " fail-closed denial");
      (lit "evidence", lit ".GITHUB-MODE/runtime/command-policy.json");
      (lit "policyVersion", lit "v1.0.0"); (lit "enforcementMode", lit "audit") ]
  = Some (reportedField auditModeHost repo (lit "policyVersion")).
Proof.
  refine (proj1 (enforcePolicyGatedAdapter_provenance auditModeHost repo
                   (lit "repo-write") (lit "open-pr") _ _)).
  vm_compute. reflexivity.
Defined.

End ProvenanceFacts.

Module ScriptFacts.
Import PolicyGate.
Import PolicyGateSpec.
Import PolicyGateMoreSpec.
Import PolicyGateFacts.
Import PolicyGateCli.

(** ** The summary of a decision *)

Lemma formatDecisionSummary_decision (h : Host)
    (adapterName action result reason evidence policyVersion enforcementMode : jsstring) :
  formatDecisionSummary
    (decision (base h adapterName action)
       result reason evidence policyVersion enforcementMode) =
  join [LF]
    [ lit "## Policy-Gated Adapter Decision";
      [];
      (if bool_decide (Some result = Some (lit "PASS"))
       then [CHECK_MARK] else [CROSS_MARK]) ++ lit " **Result:** " ++ result;
      lit "- Gate: `" ++ lit "policy-gated-adapter" ++ lit "`";
      lit "- Adapter: `" ++ adapterName ++ lit "`";
      lit "- Action: `" ++ action ++ lit "`";
      lit "- Reason: " ++ reason;
      lit "- Policy Version: `" ++ policyVersion ++ lit "`";
      lit "- Enforcement Mode: `" ++ enforcementMode ++ lit "`";
      lit "- Evidence: " ++ evidence;
      lit "- Timestamp: " ++ now_toISOString h ].
Proof.
  unfold formatDecisionSummary.
  destruct (decision_fields h adapterName action result reason evidence
              policyVersion enforcementMode)
    as (_ & Hgate & Hadapter & Haction & Htime & Hres & Hreason & Hev & Hpv & Hem).
  cbv zeta in *.
  rewrite Hgate, Hadapter, Haction, Htime, Hres, Hreason, Hev, Hpv, Hem.
  reflexivity.
Qed.

(** X23: the summary of a decision returned by the gate opens with its title,
    shows the result with the check mark on PASS and the cross on FAIL, and
    has the lines of the adapter, the action, the reason and the timestamp of
    the call. *)
Theorem formatDecisionSummary_of_returned_decision
    (h : Host) (root adapterName action : jsstring) (d : PolicyDecision) :
  enforcePolicyGatedAdapter h root adapterName action = Normal d →
  let text := formatDecisionSummary d in
  startsWith text (lit "## Policy-Gated Adapter Decision") = true ∧
  (resultOf d = Some PASS →
     str_includes text ([CHECK_MARK] ++ lit " **Result:** PASS") = true) ∧
  (resultOf d = Some FAIL →
     str_includes text ([CROSS_MARK] ++ lit " **Result:** FAIL") = true) ∧
  str_includes text (lit "- Adapter: `" ++ adapterName ++ lit "`") = true ∧
  str_includes text (lit "- Action: `" ++ action ++ lit "`") = true ∧
  str_includes text (lit "- Timestamp: " ++ now_toISOString h) = true ∧
  ∀ reason, reasonOf d = Some reason →
            str_includes text (lit "- Reason: " ++ reason) = true.
Proof.
  intros (result & reason & evidence & pv & em & -> & Hresult)%enforcePolicyGatedAdapter_returns.
  cbv zeta. rewrite formatDecisionSummary_decision.
  rewrite resultOf_decision, reasonOf_decision.
  assert (∀ part sep parts, part ∈ parts →
            str_includes (join sep parts) part = true) as Hpart.
  { intros part sep parts (pre & post & ->)%(join_includes sep).
    apply str_includes_infix. }
  split; [apply (startsWith_app (lit "## Policy-Gated Adapter Decision"))|].
  split; [|split; [|split; [|split; [|split]]]].
  - intros [= ->]. apply Hpart. rewrite !elem_of_cons. auto.
  - intros [= ->]. apply Hpart. rewrite !elem_of_cons. auto.
  - apply Hpart. rewrite !elem_of_cons. auto 10.
  - apply Hpart. rewrite !elem_of_cons. auto 10.
  - apply Hpart. rewrite !elem_of_cons. auto 20.
  - intros ? [= <-]. apply Hpart. rewrite !elem_of_cons. auto 10.
Qed.

Lemma formatDecisionSummary_of_returned_decision_witness :
  startsWith
    (formatDecisionSummary
       [ (lit "gate", lit "policy-gated-adapter"); (lit "adapter", lit "repo-write");
         (lit "action", lit "open-pr"); (lit "timestamp", lit "2026-02-20T00:00:00.000Z");
         (lit "result", lit "FAIL");
         (lit "reason",
          lit "command-policy enforcementMode is " ++ [QUOTE] ++ lit "audit" ++ [QUOTE] ++
          lit ", expected " ++ [QUOTE] ++ lit "enforce" ++ [QUOTE] ++ lit " " ++
          [EM_DASH] ++ lit " fail-closed denial");
         (lit "evidence", lit ".GITHUB-MODE/runtime/command-policy.json");
         (lit "policyVersion", lit "v1.0.0"); (lit "enforcementMode", lit "audit") ])
    (lit "## Policy-Gated Adapter Decision") = true.
Proof.
  refine (proj1 (formatDecisionSummary_of_returned_decision auditModeHost repo
                   (lit "repo-write") (lit "open-pr") _ _)).
  vm_compute. reflexivity.
Defined.

(** ** The script *)

Lemma writeOutputs_effects (p : Process) (d : PolicyDecision) (summary : jsstring)
    (n : nat) (args : list jsstring) (written : list Effect) (e : Effect) :
  (length args ≤ n)%nat →
  e ∈ (writeOutputs p d summary args written).1 →
  e ∈ written ∨
  ∃ path, path ∈ args ∧ path ≠ [] ∧
          (e = Wrote path (JSON_stringify p d ++ [LF]) ∨
           e = Wrote path (summary ++ [LF])).
Proof.
  revert args written. induction n as [|n IH]; intros args written Hlen.
  { destruct args; [|simpl in Hlen; lia]. simpl. auto. }
  destruct args as [|arg rest]; [simpl; auto|].
  simpl in Hlen.
  assert (∀ written',
            (∀ x, x ∈ written' → x ∈ written ∨
               ∃ path, path ∈ arg :: rest ∧ path ≠ [] ∧
                       (x = Wrote path (JSON_stringify p d ++ [LF]) ∨
                        x = Wrote path (summary ++ [LF]))) →
            ∀ rest', (∀ x, x ∈ rest' → x ∈ rest) → (length rest' ≤ n)%nat →
            e ∈ (writeOutputs p d summary rest' written').1 →
            e ∈ written ∨
            ∃ path, path ∈ arg :: rest ∧ path ≠ [] ∧
                    (e = Wrote path (JSON_stringify p d ++ [LF]) ∨
                     e = Wrote path (summary ++ [LF]))) as Hstep.
  { intros written' Hwritten' rest' Hsub Hlen' He.
    destruct (IH rest' written' Hlen' He) as [Hin|(path & Hpath & Hrest)].
    - by apply Hwritten'.
    - right. exists path. split; [right; by apply Hsub|done]. }
  cbn [writeOutputs].
  destruct rest as [|[|c value] rest'].
  - apply Hstep; [auto|done|simpl; lia].
  - apply Hstep; [auto|done|lia].
  - simpl in Hlen.
    assert (∀ content,
              content = JSON_stringify p d ++ [LF] ∨ content = summary ++ [LF] →
              ∀ x, x ∈ written ++ [Wrote (c :: value) content] →
                   x ∈ written ∨
                   ∃ path, path ∈ arg :: (c :: value) :: rest' ∧ path ≠ [] ∧
                           (x = Wrote path (JSON_stringify p d ++ [LF]) ∨
                            x = Wrote path (summary ++ [LF]))) as Hnew.
    { intros content Hcontent x [?|Hx]%elem_of_app; [by left|].
      apply list_elem_of_singleton in Hx as ->.
      right. exists (c :: value). split; [by right; left|]. split; [done|].
      destruct Hcontent as [-> | ->]; auto. }
    case_bool_decide.
    { destruct (writeFileSync p _ _ _); [|by left].
      apply Hstep; [apply Hnew; auto|intros; by right|lia]. }
    case_bool_decide.
    { destruct (writeFileSync p _ _ _); [|by left].
      apply Hstep; [apply Hnew; auto|intros; by right|lia]. }
    apply Hstep; [auto|done|simpl; lia].
Qed.


(** X25: a file is written only for a decision the gate returned: its path is a
    non-empty argument of the command line and its content is that decision's
    JSON or summary followed by a line feed; nothing is written when a
    variable is missing or the gate throws. *)
Theorem script_writes_only_decisions
    (h : Host) (p : Process) (path content : jsstring) :
  Wrote path content ∈ effects (script h p) →
  ∃ adapterName action d,
    env p (lit "GITHUB_MODE_ADAPTER") = Some adapterName ∧
    env p (lit "GITHUB_MODE_ACTION") = Some action ∧
    enforcePolicyGatedAdapter h (cwd p) adapterName action = Normal d ∧
    path ∈ argv p ∧ path ≠ [] ∧
    (content = JSON_stringify p d ++ [LF] ∨
     content = formatDecisionSummary d ++ [LF]).
Proof.
  unfold script, main.
  assert (∀ line, Wrote path content ∈ [Stderr line] → False) as Hnone.
  { intros line H%list_elem_of_singleton. discriminate H. }
  destruct (env p (lit "GITHUB_MODE_ADAPTER")) as [[|c a]|];
    [by intros ?%Hnone| |by intros ?%Hnone].
  destruct (env p (lit "GITHUB_MODE_ACTION")) as [[|c' a']|];
    [by intros ?%Hnone| |by intros ?%Hnone].
  destruct (enforcePolicyGatedAdapter h (cwd p) (c :: a) (c' :: a')) as [d|?] eqn:Hd;
    [|by intros ?%Hnone].
  pose proof (writeOutputs_effects p d (formatDecisionSummary d) (length (argv p))
                (argv p) [] (Wrote path content) (le_n _)) as Hw.
  destruct (writeOutputs p d (formatDecisionSummary d) (argv p) [])
    as [written [[]|?]]; cbn [fst] in Hw.
  - intros Hrun. assert (Wrote path content ∈ written) as Hin.
    { revert Hrun. case_bool_decide; cbn [effects];
        rewrite elem_of_app, !elem_of_cons, elem_of_nil; intros [?|Hout]; try done;
        destruct Hout as [Hout|[Hout|[Hout|[]]]]; discriminate Hout. }
    destruct (Hw Hin) as [[]%elem_of_nil|(path' & ? & ? & Hcase)].
    exists (c :: a), (c' :: a'), d.
    destruct Hcase as [[= -> ->]|[= -> ->]]; auto 10.
  - cbn [effects]. rewrite elem_of_app.
    intros [Hin|?%Hnone]; [|done].
    destruct (Hw Hin) as [[]%elem_of_nil|(path' & ? & ? & Hcase)].
    exists (c :: a), (c' :: a'), d.
    destruct Hcase as [[= -> ->]|[= -> ->]]; auto 10.
Qed.

Lemma script_writes_only_decisions_witness :
  ∃ adapterName action d,
    env (exampleProcess (lit "repo-write") (lit "delete")
           [ lit "--json-out"; lit "decision.json" ])
      (lit "GITHUB_MODE_ADAPTER") = Some adapterName ∧
    env (exampleProcess (lit "repo-write") (lit "delete")
           [ lit "--json-out"; lit "decision.json" ])
      (lit "GITHUB_MODE_ACTION") = Some action ∧
    enforcePolicyGatedAdapter (validHost (lit "2026-02-20T00:00:00.000Z"))
      repo adapterName action = Normal d ∧
    lit "decision.json" ∈ [ lit "--json-out"; lit "decision.json" ] ∧
    lit "decision.json" ≠ [] ∧
    (lit "{...}" ++ [LF] = lit "{...}" ++ [LF] ∨
     lit "{...}" ++ [LF] = formatDecisionSummary d ++ [LF]).
Proof.
  refine (script_writes_only_decisions
            (validHost (lit "2026-02-20T00:00:00.000Z"))
            (exampleProcess (lit "repo-write") (lit "delete")
               [ lit "--json-out"; lit "decision.json" ])
            (lit "decision.json") (lit "{...}" ++ [LF]) _).
  replace (effects _) with
    [ Wrote (lit "decision.json") (lit "{...}" ++ [LF]);
      Stdout (formatDecisionSummary
                (match enforcePolicyGatedAdapter
                         (validHost (lit "2026-02-20T00:00:00.000Z"))
                         repo (lit "repo-write") (lit "delete") with
                 | Normal d => d
                 | Throw _ => []
                 end));
      Stdout ([LF] ++ lit "--- POLICY_DECISION_JSON ---");
      Stdout (lit "{...}") ]
    by (vm_compute; reflexivity).
  by left.
Defined.

(** The script on the fixture of the test suite: an allowed action exits with
    0, a denied one with 1 after writing the requested file, and a missing
    variable with 1 and one line on the error stream. *)
Example test_script :
  exitCode (script (validHost (lit "2026-02-20T00:00:00.000Z"))
              (exampleProcess (lit "repo-write") (lit "open-pr") [])) = 0 ∧
  exitCode (script (validHost (lit "2026-02-20T00:00:00.000Z"))
              (exampleProcess (lit "repo-write") (lit "delete")
                 [ lit "--json-out"; lit "decision.json" ])) = 1 ∧
  script (validHost (lit "2026-02-20T00:00:00.000Z"))
    (exampleProcess [] (lit "open-pr") []) =
    {| effects :=
         [ Stderr ([CROSS_MARK] ++
                   lit " GITHUB_MODE_ADAPTER environment variable is required") ];
       exitCode := 1 |} ∧
  script nullPolicyHost (exampleProcess (lit "repo-write") (lit "open-pr") []) =
    {| effects :=
         [ Stderr ([CROSS_MARK] ++
                   lit " Cannot read properties of null (reading 'policyVersion')") ];
       exitCode := 1 |}.
Proof. repeat split; vm_compute; reflexivity. Qed.

End ScriptFacts.
